(** * dprint-vscode: reinitialization controller and LSP backend session

    A shallow embedding of [src/extension.ts] and [src/lsp.ts].

    - [Extension]: the closure of [activate] in its debouncing revision
      (lines 154-305 of the source listing):
      [debounceReInitializeBackend] and [reInitializeBackend], driven by
      the events of the editor and of the event loop.
    - [Lsp]: the backend built by [activateLsp]: [reInitialize],
      [dispose] and [workspaceHasConfigFile].
    - [ConfigurationWatch]: the configuration listener of the debouncing
      [activate], with [isLsp].
    - [Prompting]: the closure of [activate] in the earlier revision
      (lines 1-153), with the bare re-entry guard and the refresh
      prompt.
    - [Global]: [GlobalPluginState], [getAndSetNewGlobalState],
      [clearGlobalState] and [deactivate].

    TypeScript closures become records of their captured variables, and
    every function of the source becomes a computation in a small
    state-and-exception monad, so that [try]/[catch]/[finally], early
    [return] and [throw] keep the shape they have in the source.

    The collaborators that are imported but not part of these files are
    taken by their interface: config discovery and the ancestor search
    answer without throwing; [DprintExecutable.resolveCmdPath],
    [client.start()] and [client.stop()] may reject; [client.dispose()],
    the constructor of the client and the logger do not.  Their answers
    during one call are the fields of [Lsp.Env], and every call made to
    them is recorded in a trace. *)

From stdpp Require Import gmap strings list.

Local Open Scope string_scope.

(** ** Values a JavaScript computation can throw in these files *)

Inductive Thrown :=
| ResolutionFailed (reason : string)   (* DprintExecutable.resolveCmdPath rejected *)
| ConnectionFailed (reason : string)   (* client.start() rejected *)
| ShutdownFailed (reason : string)     (* client.stop() rejected *)
| TypeError (msg : string).            (* property read on undefined *)

(** ** State and exceptions *)

Inductive Completion (A : Type) :=
| Normal (a : A)
| Throw (e : Thrown).
Arguments Normal {A} a.
Arguments Throw {A} e.

Definition Eff (S A : Type) : Type := S -> S * Completion A.

Definition eff_ret {S A} (a : A) : Eff S A := fun s => (s, Normal a).

Definition eff_bind {S A B} (k : A -> Eff S B) (m : Eff S A) : Eff S B :=
  fun s =>
    match m s with
    | (s1, Normal a) => k a s1
    | (s1, Throw e) => (s1, Throw e)
    end.

#[global] Instance Eff_ret {S} : MRet (Eff S) := @eff_ret S.
#[global] Instance Eff_bind {S} : MBind (Eff S) := @eff_bind S.

Definition throw {S A} (e : Thrown) : Eff S A := fun s => (s, Throw e).
Definition gets {S A} (f : S -> A) : Eff S A := fun s => (s, Normal (f s)).
Definition modify {S} (f : S -> S) : Eff S unit := fun s => (f s, Normal tt).

(** [try { body } catch (err) { handler err } finally { fin }].  The
    [finally] block runs on every path; when it completes normally the
    completion of the [try]/[catch] part is the result. *)
Definition try_catch_finally {S A}
    (body : Eff S A) (handler : Thrown -> Eff S A) (fin : Eff S unit) : Eff S A :=
  fun s =>
    let '(s2, r2) :=
      match body s with
      | (s1, Normal a) => (s1, Normal a)
      | (s1, Throw e) => handler e s1
      end in
    match fin s2 with
    | (s3, Normal _) => (s3, r2)
    | (s3, Throw e) => (s3, Throw e)
    end.

(** The settled outcome of an awaited promise, as a value. *)
Definition attempt {S A} (m : Eff S A) : Eff S (Completion A) :=
  fun s => let '(s1, r) := m s in (s1, Normal r).

(** [await p] for a promise that has settled with [r]. *)
Definition settled {S A} (r : Completion A) : Eff S A :=
  match r with
  | Normal a => mret a
  | Throw e => throw e
  end.

(** Run a computation on a component of a larger state. *)
Definition zoom {S T A} (proj : S -> T) (inj : T -> S -> S) (m : Eff T A) : Eff S A :=
  fun s => let '(t1, r) := m (proj s) in (inj t1 s, r).

Definition exec {S A} (m : Eff S A) (s : S) : S := fst (m s).
Definition result {S A} (m : Eff S A) (s : S) : Completion A := snd (m s).

(** ** The logger *)

Inductive LogEntry :=
| Info (msg : string)
| Error (msg : string) (err : Thrown).

(** ** src/lsp.ts *)

Module Lsp.

Definition Uri := string.
Definition Handle := nat.

Record WorkspaceFolder := { uri : Uri; name : string }.

(** Only forwarded to the resolver. *)
Definition PathInfo : Type := option string.

Record DprintConfig := {
  pathInfo : PathInfo;
  verbose : bool;
  experimentalLsp : bool;
}.

(** The argument object of [DprintExecutable.resolveCmdPath], without
    the trust store and the logger, which come from the closure, and the
    environment, which is built from the logger. *)
Record ResolveArgs := {
  ra_pathInfo : PathInfo;
  ra_cwd : option Uri;
  ra_configUri : option Uri;
  ra_verbose : bool;
}.

Record ServerOptions := {
  command : string;
  args : list string;
  shell : bool;
}.

(** What the lifecycle calls that have settled did to a
    [LanguageClient] object: [Running] once [start()] has resolved,
    [StartFailed] once it has rejected, [Stopped] once [stop()] has
    resolved.  A [stop()] that rejects leaves the record as it was. *)
Inductive ClientState := Initial | Running | StartFailed | Stopped.

#[global] Instance ClientState_eq_dec : EqDecision ClientState.
Proof. solve_decision. Defined.

Record LanguageClient := {
  id : string;
  serverOptions : ServerOptions;
  documentScheme : string;
  state : ClientState;
  disposed : bool;
}.

(** Calls made to the collaborators, in program order. *)
Inductive Call :=
| ClientStop (h : Handle) (timeout : nat)
| ClientDispose (h : Handle)
| DiscoverWorkspaceConfigFiles (maxResults : nat)
| AncestorDirsContainConfigFile (u : Uri)
| GetCombinedDprintConfig (folders : list WorkspaceFolder)
| ResolveCmdPath (a : ResolveArgs)
| NewLanguageClient (h : Handle) (o : ServerOptions)
| ClientStart (h : Handle)
| ResourceStoresDispose.

(** The answers of the collaborators during one call of [reInitialize]
    or [dispose].  The workspace folders, read three times by
    [reInitialize], are taken not to change while the call runs;
    [stop] and [start] are each awaited at most once in a call. *)
Record Env := {
  stop : Completion unit;
  workspaceFolders : option (list WorkspaceFolder);
  discoverWorkspaceConfigFiles : nat -> list Uri;
  ancestorDirsContainConfigFile : Uri -> bool;
  getCombinedDprintConfig : list WorkspaceFolder -> DprintConfig;
  resolveCmdPath : ResolveArgs -> Completion string;
  start : Completion unit;
}.

(** The closure of [activateLsp] ([client]) together with what it
    shares with the rest of the process: the client objects it has
    constructed, the logger's output and the trace of calls. *)
Record World := {
  client : option Handle;
  heap : gmap Handle LanguageClient;
  log : list LogEntry;
  calls : list Call;
}.

Definition set_client (c : option Handle) (w : World) : World :=
  {| client := c; heap := heap w; log := log w; calls := calls w |}.
Definition set_heap (f : gmap Handle LanguageClient -> gmap Handle LanguageClient)
    (w : World) : World :=
  {| client := client w; heap := f (heap w); log := log w; calls := calls w |}.
Definition add_log (e : LogEntry) (w : World) : World :=
  {| client := client w; heap := heap w; log := (log w ++ [e])%list; calls := calls w |}.
Definition add_call (c : Call) (w : World) : World :=
  {| client := client w; heap := heap w; log := log w; calls := (calls w ++ [c])%list |}.

Definition set_state (st : ClientState) (c : LanguageClient) : LanguageClient :=
  {| id := id c; serverOptions := serverOptions c; documentScheme := documentScheme c;
     state := st; disposed := disposed c |}.
Definition set_disposed (c : LanguageClient) : LanguageClient :=
  {| id := id c; serverOptions := serverOptions c; documentScheme := documentScheme c;
     state := state c; disposed := true |}.

Definition empty : World := {| client := None; heap := ∅; log := []; calls := [] |}.

(** *** The collaborators' operations *)

Definition logInfo (msg : string) : Eff World unit := modify (add_log (Info msg)).
Definition logError (msg : string) (err : Thrown) : Eff World unit :=
  modify (add_log (Error msg err)).
Definition call (c : Call) : Eff World unit := modify (add_call c).

(** [client.stop(timeout)]: may reject, as it does in the published
    client for a client that is not running and when the server does
    not shut down in time. *)
Definition client_stop (env : Env) (h : Handle) (timeout : nat) : Eff World unit :=
  call (ClientStop h timeout);;
  settled (stop env);;
  modify (set_heap (alter (set_state Stopped) h)).

Definition client_dispose (h : Handle) : Eff World unit :=
  call (ClientDispose h);;
  modify (set_heap (alter set_disposed h)).

(** [new LanguageClient("dprint", serverOptions, clientOptions)]. *)
Definition new_LanguageClient (name : string) (so : ServerOptions) (scheme : string)
    : Eff World Handle :=
  h ← gets (fun w => fresh (dom (heap w)));
  call (NewLanguageClient h so);;
  modify (set_heap (insert h {| id := name; serverOptions := so; documentScheme := scheme;
                                state := Initial; disposed := false |}));;
  mret h.

(** [client.start()]: may reject; the client is then not running. *)
Definition client_start (env : Env) (h : Handle) : Eff World unit :=
  call (ClientStart h);;
  match start env with
  | Normal _ => modify (set_heap (alter (set_state Running) h))
  | Throw e => modify (set_heap (alter (set_state StartFailed) h));; throw e
  end.

Definition discover (env : Env) (maxResults : nat) : Eff World (list Uri) :=
  call (DiscoverWorkspaceConfigFiles maxResults);;
  mret (discoverWorkspaceConfigFiles env maxResults).

Definition ancestors (env : Env) (u : Uri) : Eff World bool :=
  call (AncestorDirsContainConfigFile u);;
  mret (ancestorDirsContainConfigFile env u).

Definition combined_config (env : Env) (folders : list WorkspaceFolder)
    : Eff World DprintConfig :=
  call (GetCombinedDprintConfig folders);;
  mret (getCombinedDprintConfig env folders).

Definition resolve (env : Env) (a : ResolveArgs) : Eff World string :=
  call (ResolveCmdPath a);;
  settled (resolveCmdPath env a).

(** *** The functions of the file *)

Definition isLsp : bool := true.

(** [vscode.workspace.workspaceFolders?.[0]] *)
Definition first_folder (env : Env) : option WorkspaceFolder :=
  match workspaceFolders env with
  | None => None
  | Some fs => head fs
  end.

(** [vscode.workspace.workspaceFolders?.[0].uri]: the chain stops on
    an undefined array only; an empty array gives [undefined.uri]. *)
Definition first_folder_uri (env : Env) : Eff World (option Uri) :=
  match workspaceFolders env with
  | None => mret None
  | Some fs =>
      match head fs with
      | Some f => mret (Some (uri f))
      | None => throw (TypeError "Cannot read properties of undefined (reading 'uri')")
      end
  end.

Definition workspaceHasConfigFile (env : Env) : Eff World bool :=
  configFiles ← discover env 1;
  if (0 <? List.length configFiles)%nat then mret true
  else
    match first_folder env with
    | None => mret false
    | Some workspaceFolder => ancestors env (uri workspaceFolder)
    end.

(** The shared prologue of [reInitialize] and [dispose]:
    [if (client) { await client.stop(2_000); client.dispose(); client = undefined; }] *)
Definition release_client (env : Env) : Eff World unit :=
  c ← gets client;
  match c with
  | Some h =>
      client_stop env h 2000;;
      client_dispose h;;
      modify (set_client None)
  | None => mret tt
  end.

Definition reInitialize (env : Env) : Eff World unit :=
  release_client env;;
  found ← workspaceHasConfigFile env;
  if negb found then
    logInfo "Configuration file not found."
  else
    rootUri ← first_folder_uri env;
    config ← combined_config env (default [] (workspaceFolders env));
    cmdPath ← resolve env {| ra_pathInfo := pathInfo config; ra_cwd := rootUri;
                             ra_configUri := None; ra_verbose := verbose config |};
    let args := (["lsp"] ++ (if verbose config then ["--verbose"] else []))%list in
    let serverOptions := {| command := cmdPath; args := args; shell := true |} in
    h ← new_LanguageClient "dprint" serverOptions "file";
    modify (set_client (Some h));;
    client_start env h;;
    logInfo "Started experimental language server.".

Definition dispose (env : Env) : Eff World unit :=
  release_client env;;
  call ResourceStoresDispose.

(** *** Observations on the session, used to state its properties *)

Definition live (w : World) (h : Handle) : Prop :=
  exists c, heap w !! h = Some c /\ disposed c = false.

Record handle_inv (w : World) : Prop := {
  inv_owned : forall h, live w h -> client w = Some h;
  inv_client : forall h, client w = Some h -> live w h;
  inv_running : forall h c, heap w !! h = Some c -> state c = Running -> disposed c = false;
}.

(** The clients that have been constructed and not disposed, and
    those among all clients that are running. *)
Definition live_handles (w : World) : gset Handle :=
  dom (filter (fun kv => disposed kv.2 = false) (heap w)).

Definition running_handles (w : World) : gset Handle :=
  dom (filter (fun kv => state kv.2 = Running) (heap w)).

Definition is_release (c : Call) : bool :=
  match c with
  | ClientStop _ _ | ClientDispose _ => true
  | _ => false
  end.

Definition is_construct (c : Call) : bool :=
  match c with
  | NewLanguageClient _ _ => true
  | _ => false
  end.

Definition released (env : Env) (w : World) : World := exec (release_client env) w.

(** The calls of a release that completes. *)
Definition release_calls (c : option Handle) : list Call :=
  match c with
  | Some h => [ClientStop h 2000; ClientDispose h]
  | None => []
  end.

(** The calls of a release in which [stop] rejects. *)
Definition stop_calls (c : option Handle) : list Call :=
  match c with
  | Some h => [ClientStop h 2000]
  | None => []
  end.

(** The three ways a call of [reInitialize] can end, relative to the
    world [w1] left by the release of the previous client. *)
Variant ending (env : Env) (w1 w' : World) (r : Completion unit) (cs : list Call) : Prop :=
| ConfigAbsent :
    result (workspaceHasConfigFile env) w1 = Normal false ->
    r = Normal tt -> client w' = client w1 -> heap w' = heap w1 ->
    log w' = (log w1 ++ [Info "Configuration file not found."])%list ->
    forallb (fun c => negb (is_construct c)) cs = true ->
    ending env w1 w' r cs
| NotConstructed e :
    result (workspaceHasConfigFile env) w1 = Normal true ->
    r = Throw e -> client w' = client w1 -> heap w' = heap w1 ->
    log w' = log w1 ->
    forallb (fun c => negb (is_construct c)) cs = true ->
    (workspaceFolders env = Some [] /\ (exists msg, e = TypeError msg) \/
     exists a, resolveCmdPath env a = Throw e /\ last cs = Some (ResolveCmdPath a)) ->
    ending env w1 w' r cs
| Constructed a cmd c :
    result (workspaceHasConfigFile env) w1 = Normal true ->
    resolveCmdPath env a = Normal cmd ->
    command (serverOptions c) = cmd ->
    client w' = Some (fresh (dom (heap w1))) ->
    heap w' = <[fresh (dom (heap w1)) := c]> (heap w1) ->
    disposed c = false ->
    (r = Normal tt /\ start env = Normal tt /\ state c = Running /\
     log w' = (log w1 ++ [Info "Started experimental language server."])%list
     \/
     exists e, r = Throw e /\ start env = Throw e /\ state c = StartFailed /\
               log w' = log w1) ->
    ending env w1 w' r cs.

(** A run in which the server fails to start. *)
Definition env_start_fails : Env := {|
  stop := Normal tt;
  workspaceFolders := Some [ {| uri := "/work"; name := "work" |} ];
  discoverWorkspaceConfigFiles := fun _ => ["/work/dprint.json"];
  ancestorDirsContainConfigFile := fun _ => false;
  getCombinedDprintConfig := fun _ =>
    {| pathInfo := None; verbose := false; experimentalLsp := true |};
  resolveCmdPath := fun _ => Normal "dprint";
  start := Throw (ConnectionFailed "spawn dprint ENOENT");
|}.

(** Sample runs of the collaborators: a config file in the workspace and
    a server that starts; no config file anywhere; an executable whose
    path is not approved. *)
Definition env_ok : Env := {|
  stop := Normal tt;
  workspaceFolders := Some [ {| uri := "/work"; name := "work" |} ];
  discoverWorkspaceConfigFiles := fun _ => ["/work/dprint.json"];
  ancestorDirsContainConfigFile := fun _ => false;
  getCombinedDprintConfig := fun _ =>
    {| pathInfo := None; verbose := true; experimentalLsp := true |};
  resolveCmdPath := fun _ => Normal "dprint";
  start := Normal tt;
|}.

Definition env_no_config : Env := {|
  stop := Normal tt;
  workspaceFolders := Some [ {| uri := "/work"; name := "work" |} ];
  discoverWorkspaceConfigFiles := fun _ => [];
  ancestorDirsContainConfigFile := fun _ => false;
  getCombinedDprintConfig := fun _ =>
    {| pathInfo := None; verbose := false; experimentalLsp := true |};
  resolveCmdPath := fun _ => Normal "dprint";
  start := Normal tt;
|}.

Definition env_untrusted : Env := {|
  stop := Normal tt;
  workspaceFolders := Some [ {| uri := "/work"; name := "work" |} ];
  discoverWorkspaceConfigFiles := fun _ => [];
  ancestorDirsContainConfigFile := fun u => String.eqb u "/work";
  getCombinedDprintConfig := fun _ =>
    {| pathInfo := Some "/opt/custom/dprint"; verbose := false; experimentalLsp := true |};
  resolveCmdPath := fun _ => Throw (ResolutionFailed "path not approved");
  start := Normal tt;
|}.

(** A call in which [client.stop()] rejects, as the published client
    does for a client that failed to start. *)
Definition env_stop_rejects : Env := {|
  stop := Throw (ShutdownFailed "Client is not running and can't be stopped.");
  workspaceFolders := workspaceFolders env_ok;
  discoverWorkspaceConfigFiles := discoverWorkspaceConfigFiles env_ok;
  ancestorDirsContainConfigFile := ancestorDirsContainConfigFile env_ok;
  getCombinedDprintConfig := getCombinedDprintConfig env_ok;
  resolveCmdPath := resolveCmdPath env_ok;
  start := start env_ok;
|}.

(** The two operations of the backend, for sequences of completed calls. *)
Inductive Op :=
| ReInitialize (env : Env)
| Dispose (env : Env).

Definition apply_op (o : Op) (w : World) : World :=
  match o with
  | ReInitialize env => exec (reInitialize env) w
  | Dispose env => exec (dispose env) w
  end.

Definition run_ops (ops : list Op) (w : World) : World :=
  fold_left (fun w o => apply_op o w) ops w.

End Lsp.

(** ** src/extension.ts (the debouncing [activate]) *)

Module Extension.

Definition Timer := nat.

(** The variables captured by the closures of [activate], the timers
    of the event loop that are armed and have neither fired nor been
    cleared (each maps to its delay; the callback is always
    [reInitializeBackend]), and the backend.  [inflight] counts the
    calls of [backend.reInitialize()] that have started and not yet
    settled, [runs] all that ever started. *)
Record State := {
  isReInitializing : bool;
  pendingReInit : bool;
  reInitializeTimeout : option Timer;
  timers : gmap Timer nat;
  nextTimer : Timer;
  inflight : nat;
  runs : nat;
  backend : Lsp.World;
}.

Definition set_isReInitializing (b : bool) (s : State) : State :=
  {| isReInitializing := b; pendingReInit := pendingReInit s;
     reInitializeTimeout := reInitializeTimeout s; timers := timers s;
     nextTimer := nextTimer s; inflight := inflight s; runs := runs s;
     backend := backend s |}.
Definition set_pendingReInit (b : bool) (s : State) : State :=
  {| isReInitializing := isReInitializing s; pendingReInit := b;
     reInitializeTimeout := reInitializeTimeout s; timers := timers s;
     nextTimer := nextTimer s; inflight := inflight s; runs := runs s;
     backend := backend s |}.
Definition set_reInitializeTimeout (t : option Timer) (s : State) : State :=
  {| isReInitializing := isReInitializing s; pendingReInit := pendingReInit s;
     reInitializeTimeout := t; timers := timers s;
     nextTimer := nextTimer s; inflight := inflight s; runs := runs s;
     backend := backend s |}.
Definition set_timers (f : gmap Timer nat -> gmap Timer nat) (n : Timer) (s : State) : State :=
  {| isReInitializing := isReInitializing s; pendingReInit := pendingReInit s;
     reInitializeTimeout := reInitializeTimeout s; timers := f (timers s);
     nextTimer := n; inflight := inflight s; runs := runs s;
     backend := backend s |}.
Definition set_inflight (n r : nat) (s : State) : State :=
  {| isReInitializing := isReInitializing s; pendingReInit := pendingReInit s;
     reInitializeTimeout := reInitializeTimeout s; timers := timers s;
     nextTimer := nextTimer s; inflight := n; runs := r;
     backend := backend s |}.
Definition set_backend (w : Lsp.World) (s : State) : State :=
  {| isReInitializing := isReInitializing s; pendingReInit := pendingReInit s;
     reInitializeTimeout := reInitializeTimeout s; timers := timers s;
     nextTimer := nextTimer s; inflight := inflight s; runs := runs s;
     backend := w |}.

(** *** The event loop's timers *)

Definition setTimeout (delay : nat) : Eff State Timer :=
  t ← gets nextTimer;
  modify (set_timers (insert t delay) (S t));;
  mret t.

(** Clearing a timer that has fired or was cleared does nothing. *)
Definition clearTimeout (t : Timer) : Eff State unit :=
  n ← gets nextTimer;
  modify (set_timers (delete t) n).

(** *** The backend and the logger, seen from [activate] *)

Definition on_backend {A} (m : Eff Lsp.World A) : Eff State A :=
  zoom backend set_backend m.

Definition logInfo (msg : string) : Eff State unit := on_backend (Lsp.logInfo msg).
Definition logError (msg : string) (err : Thrown) : Eff State unit :=
  on_backend (Lsp.logError msg err).

(** *** The functions of the file *)

Definition debounceReInitializeBackend : Eff State unit :=
  t ← gets reInitializeTimeout;
  match t return Eff State unit with
  | Some t => clearTimeout t
  | None => mret tt
  end;;
  busy ← gets isReInitializing;
  if (busy : bool) then
    modify (set_pendingReInit true)
  else
    t ← setTimeout 250;
    modify (set_reInitializeTimeout (Some t)).

(** [reInitializeBackend] up to its [await]: the guard, the flag, and
    the call of [backend.reInitialize()], which is now in flight. *)
Definition reInitializeBackend : Eff State unit :=
  busy ← gets isReInitializing;
  if (busy : bool) then
    modify (set_pendingReInit true)
  else
    modify (set_isReInitializing true);;
    modify (fun s => set_inflight (S (inflight s)) (S (runs s)) s).

(** [reInitializeBackend] from its [await] on, once the promise of
    [backend.reInitialize()] has settled with [r]. *)
Definition reInitializeBackend_settled (r : Completion unit) : Eff State unit :=
  try_catch_finally
    (settled r;;
     logInfo "Extension active!")
    (fun err => logError "Error initializing:" err)
    (modify (set_isReInitializing false);;
     pending ← gets pendingReInit;
     if (pending : bool) then
       modify (set_pendingReInit false);;
       debounceReInitializeBackend
     else mret tt).

(** *** Events

    One event is one turn of the event loop.  Between the start of a
    run and its settling the backend is suspended at its own [await]s;
    no code of [activate] runs there, and any of the other events may be
    taken in between.  The effect of the backend call on the session is
    applied when it settles, with the answers [env] its collaborators
    gave.  An event that cannot happen in a state (a timer that is not
    armed fires, a run settles when none is in flight) leaves the state
    as it is. *)

Inductive Event :=
| Trigger                   (* a subscription calls debounceReInitializeBackend *)
| Direct                    (* reInitializeBackend is called other than by a timer *)
| Fire (t : Timer)          (* the event loop runs the callback of timer t *)
| Settle (env : Lsp.Env).   (* the backend.reInitialize() in flight settles *)

Definition handle (e : Event) : Eff State unit :=
  match e with
  | Trigger => debounceReInitializeBackend
  | Direct => reInitializeBackend
  | Fire t =>
      armed ← gets (fun s => timers s !! t);
      match armed with
      | Some _ =>
          n ← gets nextTimer;
          modify (set_timers (delete t) n);;
          reInitializeBackend
      | None => mret tt
      end
  | Settle env =>
      n ← gets inflight;
      match n with
      | O => mret tt
      | S n' =>
          modify (fun s => set_inflight n' (runs s) s);;
          r ← on_backend (attempt (Lsp.reInitialize env));
          reInitializeBackend_settled r
      end
  end.

Definition step (e : Event) (s : State) : State := exec (handle e) s.

Definition run (es : list Event) (s : State) : State := fold_left (fun s e => step e s) es s.

(** [activate]: fresh closures, then line 269 calls
    [debounceReInitializeBackend()]. *)
Definition created : State :=
  {| isReInitializing := false; pendingReInit := false; reInitializeTimeout := None;
     timers := ∅; nextTimer := 0; inflight := 0; runs := 0; backend := Lsp.empty |}.

Definition activate : State := exec debounceReInitializeBackend created.

(** *** Observations on the controller, used to state its properties *)

(** At most one timer is armed, and it is the one remembered in
    [reInitializeTimeout]. *)
Definition timer_inv (s : State) : Prop :=
  timers s = ∅ \/ exists t, timers s = {[t := 250]} /\ reInitializeTimeout s = Some t.

(** What the closure variables and the event loop always satisfy. *)
Record ctl_inv (s : State) : Prop := {
  inv_timer : timer_inv s;
  inv_flag : inflight s = if isReInitializing s then 1 else 0;
  inv_pending : isReInitializing s = false -> pendingReInit s = false;
}.

Definition outcome_entry (r : Completion unit) : LogEntry :=
  match r with
  | Normal _ => Info "Extension active!"
  | Throw err => Error "Error initializing:" err
  end.

Definition is_settle (e : Event) : bool :=
  match e with
  | Settle _ => true
  | _ => false
  end.

Definition is_trigger (e : Event) : bool :=
  match e with
  | Trigger | Direct => true
  | _ => false
  end.

Definition quiescent (s : State) : Prop :=
  timers s = ∅ /\ isReInitializing s = false /\ pendingReInit s = false /\ inflight s = 0.

End Extension.

(** ** What [reInitialize] asks of its collaborators, and in which order *)

Module LspTrace.
Import Lsp.

(** [getCombinedDprintConfig(vscode.workspace.workspaceFolders ?? [])] *)
Definition combined (env : Env) : DprintConfig :=
  getCombinedDprintConfig env (default [] (workspaceFolders env)).

Definition resolve_args (env : Env) : ResolveArgs :=
  {| ra_pathInfo := pathInfo (combined env);
     ra_cwd := uri <$> first_folder env;
     ra_configUri := None;
     ra_verbose := verbose (combined env) |}.

Definition server_options (env : Env) (cmd : string) : ServerOptions :=
  {| command := cmd;
     args := "lsp" :: (if verbose (combined env) then ["--verbose"] else []);
     shell := true |}.

Definition new_client (env : Env) (cmd : string) (st : ClientState) : LanguageClient :=
  {| id := "dprint"; serverOptions := server_options env cmd; documentScheme := "file";
     state := st; disposed := false |}.

(** The ancestor search is made only when discovery found nothing and a
    first folder exists. *)
Definition ancestor_query (env : Env) : list Call :=
  if (0 <? List.length (discoverWorkspaceConfigFiles env 1))%nat then []
  else match first_folder env with
       | Some f => [AncestorDirsContainConfigFile (uri f)]
       | None => []
       end.

(** All the calls of a [reInitialize] that gets as far as starting the
    client [h], after the release of the previous one. *)
Definition full_sequence (env : Env) (h : Handle) (cmd : string) : list Call :=
  ([DiscoverWorkspaceConfigFiles 1] ++ ancestor_query env ++
   [GetCombinedDprintConfig (default [] (workspaceFolders env));
    ResolveCmdPath (resolve_args env);
    NewLanguageClient h (server_options env cmd);
    ClientStart h])%list.

(** The four ways one call of [reInitialize] can go after the release
    of the previous client, which left the world [w1]: world reached,
    completion and calls made. *)
Variant path (env : Env) (w1 w' : World) (r : Completion unit) (cs : list Call) : Prop :=
| PathConfigAbsent :
    result (workspaceHasConfigFile env) w1 = Normal false ->
    r = Normal tt -> client w' = client w1 -> heap w' = heap w1 ->
    log w' = (log w1 ++ [Info "Configuration file not found."])%list ->
    cs = ([DiscoverWorkspaceConfigFiles 1] ++ ancestor_query env)%list ->
    path env w1 w' r cs
| PathNoRootFolder :
    workspaceFolders env = Some [] ->
    discoverWorkspaceConfigFiles env 1 <> [] ->
    r = Throw (TypeError "Cannot read properties of undefined (reading 'uri')") ->
    client w' = client w1 -> heap w' = heap w1 -> log w' = log w1 ->
    cs = [DiscoverWorkspaceConfigFiles 1] ->
    path env w1 w' r cs
| PathUnresolved e :
    result (workspaceHasConfigFile env) w1 = Normal true ->
    workspaceFolders env <> Some [] ->
    resolveCmdPath env (resolve_args env) = Throw e ->
    r = Throw e -> client w' = client w1 -> heap w' = heap w1 -> log w' = log w1 ->
    cs = ([DiscoverWorkspaceConfigFiles 1] ++ ancestor_query env ++
          [GetCombinedDprintConfig (default [] (workspaceFolders env));
           ResolveCmdPath (resolve_args env)])%list ->
    path env w1 w' r cs
| PathConstructed cmd st :
    result (workspaceHasConfigFile env) w1 = Normal true ->
    workspaceFolders env <> Some [] ->
    resolveCmdPath env (resolve_args env) = Normal cmd ->
    client w' = Some (fresh (dom (heap w1))) ->
    heap w' = <[fresh (dom (heap w1)) := new_client env cmd st]> (heap w1) ->
    cs = full_sequence env (fresh (dom (heap w1))) cmd ->
    (start env = Normal tt /\ st = Running /\ r = Normal tt /\
     log w' = (log w1 ++ [Info "Started experimental language server."])%list
     \/
     exists e, start env = Throw e /\ st = StartFailed /\ r = Throw e /\ log w' = log w1) ->
    path env w1 w' r cs.

(** The steps in the life of one client, as they appear in the trace. *)
Inductive Step :=
| SNew
| SStart
| SStop (timeout : nat)
| SDispose.

Definition step_of (h : Handle) (c : Call) : option Step :=
  match c with
  | NewLanguageClient h' _ => if decide (h' = h) then Some SNew else None
  | ClientStart h' => if decide (h' = h) then Some SStart else None
  | ClientStop h' t => if decide (h' = h) then Some (SStop t) else None
  | ClientDispose h' => if decide (h' = h) then Some SDispose else None
  | _ => None
  end.

Definition lifecycle (h : Handle) (cs : list Call) : list Step := omap (step_of h) cs.

(** The trace of a client according to what the heap says of it, when
    [stop] has rejected on it [k] times. *)
Definition expected_lifecycle (k : nat) (c : option LanguageClient) : list Step :=
  match c with
  | None => []
  | Some c =>
      [SNew; SStart] ++ repeat (SStop 2000) k ++
      (if disposed c then [SStop 2000; SDispose] else [])
  end%list.

(** The trace agrees with the heap on every client; [quiet] says that
    no [stop] has rejected so far. *)
Definition traced (quiet : Prop) (w : World) : Prop :=
  forall h, exists k,
    lifecycle h (calls w) = expected_lifecycle k (heap w !! h) /\ (quiet -> k = 0).

(** The calls in which [stop], if awaited, resolves. *)
Definition stop_resolves (o : Op) : bool :=
  match o with
  | ReInitialize env | Dispose env =>
      match stop env with Normal _ => true | Throw _ => false end
  end.

(** A workspace whose folder array is empty although a configuration
    file is discovered. *)
Definition env_no_folders : Env := {|
  stop := Normal tt;
  workspaceFolders := Some [];
  discoverWorkspaceConfigFiles := fun _ => ["/dprint.json"];
  ancestorDirsContainConfigFile := fun _ => false;
  getCombinedDprintConfig := getCombinedDprintConfig env_ok;
  resolveCmdPath := fun _ => Normal "dprint";
  start := Normal tt;
|}.

End LspTrace.

(** ** Observations on the debouncing controller *)

Module ExtensionObs.
Import Extension.

(** A run is owed: a timer is armed, or the run in flight will arm one
    when it settles. *)
Definition scheduled (s : State) : Prop :=
  timers s <> ∅ \/ (isReInitializing s = true /\ pendingReInit s = true).

(** The events that call [reInitializeBackend]. *)
Definition calls_reInitializeBackend (e : Event) : bool :=
  match e with
  | Fire _ | Direct => true
  | _ => false
  end.

(** One round of the event loop left to itself: the timer remembered
    in [reInitializeTimeout] fires, if it is armed, and then the run in
    flight, if there is one, settles with the answers [env]. *)
Definition idle_round (env : Lsp.Env) (s : State) : State :=
  step (Settle env)
    match reInitializeTimeout s with
    | Some t => step (Fire t) s
    | None => s
    end.

(** The lines [reInitializeBackend] writes to the log, one per outcome. *)
Definition is_report (e : LogEntry) : bool :=
  match e with
  | Info msg => String.eqb msg "Extension active!"
  | Error msg _ => String.eqb msg "Error initializing:"
  end.

Definition reports (l : list LogEntry) : nat := length (List.filter is_report l).

End ExtensionObs.

(** ** src/extension.ts: the configuration listener of the debouncing [activate]

    Lines 236-261 and [isLsp], lines 303-305.  The listener adds one
    variable, [hasShownLspWarning], to the closure of [activate]; the
    reload message it shows is answered later, by an event of its own. *)

Module ConfigurationWatch.

(** [getCombinedDprintConfig(vscode.workspace.workspaceFolders ?? []).experimentalLsp] *)
Definition isLsp (env : Lsp.Env) : bool :=
  Lsp.experimentalLsp
    (Lsp.getCombinedDprintConfig env (default [] (Lsp.workspaceFolders env))).

(** [backendIsLsp] is the read-only [isLsp] of the backend made at
    activation; [openWarnings] counts the reload messages shown and not
    yet answered, [warnings] all that were ever shown, [reloads] the
    executions of [workbench.action.reloadWindow]. *)
Record State := {
  controller : Extension.State;
  backendIsLsp : bool;
  hasShownLspWarning : bool;
  openWarnings : nat;
  warnings : nat;
  reloads : nat;
}.

Definition set_controller (c : Extension.State) (s : State) : State :=
  {| controller := c; backendIsLsp := backendIsLsp s;
     hasShownLspWarning := hasShownLspWarning s; openWarnings := openWarnings s;
     warnings := warnings s; reloads := reloads s |}.
Definition set_hasShownLspWarning (b : bool) (s : State) : State :=
  {| controller := controller s; backendIsLsp := backendIsLsp s;
     hasShownLspWarning := b; openWarnings := openWarnings s;
     warnings := warnings s; reloads := reloads s |}.
Definition set_warnings (o n : nat) (s : State) : State :=
  {| controller := controller s; backendIsLsp := backendIsLsp s;
     hasShownLspWarning := hasShownLspWarning s; openWarnings := o;
     warnings := n; reloads := reloads s |}.
Definition set_reloads (n : nat) (s : State) : State :=
  {| controller := controller s; backendIsLsp := backendIsLsp s;
     hasShownLspWarning := hasShownLspWarning s; openWarnings := openWarnings s;
     warnings := warnings s; reloads := n |}.

Definition on_controller {A} (m : Eff Extension.State A) : Eff State A :=
  zoom controller set_controller m.

(** [vscode.window.showInformationMessage("Changing dprint.experimentalLsp
    requires reloading the vscode window.", "Reload")] *)
Definition showReloadMessage : Eff State unit :=
  modify (fun s => set_warnings (S (openWarnings s)) (S (warnings s)) s).

(** [vscode.commands.executeCommand("workbench.action.reloadWindow")] *)
Definition reloadWindow : Eff State unit :=
  modify (fun s => set_reloads (S (reloads s)) s).

(** The listener given to [onDidChangeConfiguration]; [affectsDprint] is
    [evt.affectsConfiguration("dprint")]. *)
Definition onDidChangeConfiguration (affectsDprint : bool) (env : Lsp.Env) : Eff State unit :=
  if affectsDprint then
    backendMode ← gets backendIsLsp;
    shown ← gets hasShownLspWarning;
    if negb (Bool.eqb (isLsp env) backendMode) && negb shown then
      showReloadMessage;;
      modify (set_hasShownLspWarning true)
    else
      modify (set_hasShownLspWarning false);;
      on_controller Extension.debounceReInitializeBackend
  else mret tt.

(** The [then] callback of the reload message. *)
Definition reloadMessage_answered (selectedAction : option string) : Eff State unit :=
  if decide (selectedAction = Some "Reload") then reloadWindow else mret tt.

Inductive Event :=
| Controller (e : Extension.Event)
| ConfigurationChanged (affectsDprint : bool) (env : Lsp.Env)
| ReloadAnswered (selectedAction : option string).

Definition handle (e : Event) : Eff State unit :=
  match e with
  | Controller e => on_controller (Extension.handle e)
  | ConfigurationChanged affectsDprint env => onDidChangeConfiguration affectsDprint env
  | ReloadAnswered selectedAction =>
      n ← gets openWarnings;
      match n with
      | O => mret tt
      | S n' =>
          modify (fun s => set_warnings n' (warnings s) s);;
          reloadMessage_answered selectedAction
      end
  end.

Definition step (e : Event) (s : State) : State := exec (handle e) s.

Definition run (es : list Event) (s : State) : State := fold_left (fun s e => step e s) es s.

(** [activate] with a backend whose [isLsp] is [mode]. *)
Definition activate (mode : bool) : State :=
  {| controller := Extension.activate; backendIsLsp := mode;
     hasShownLspWarning := false; openWarnings := 0; warnings := 0; reloads := 0 |}.

(** The user chooses "Reload". *)
Definition chooses_reload (e : Event) : bool :=
  match e with
  | ReloadAnswered selectedAction => bool_decide (selectedAction = Some "Reload")
  | _ => false
  end.

End ConfigurationWatch.

(** ** src/extension.ts: the prompting [activate]

    The earlier revision of the file (lines 1-153): [reInitializeBackend]
    is guarded by [isReInitializing] alone, the restart command and the
    change of workspace folders call it directly, and the file watcher
    and the configuration listener ask the user first. *)

Module Prompting.

(** The variables captured by the closures of [activate], the messages
    on screen ([openPrompts]: refresh prompts shown and not answered,
    [openWarnings]: reload messages shown and not answered), the backend
    with its read-only [isLsp], and counters as in [Extension.State]. *)
Record State := {
  isReInitializing : bool;
  configChangePromptVisible : bool;
  hasShownLspWarning : bool;
  openPrompts : nat;
  openWarnings : nat;
  reloads : nat;
  inflight : nat;
  runs : nat;
  backend : Lsp.World;
  backendIsLsp : bool;
}.

Definition set_isReInitializing (b : bool) (s : State) : State :=
  {| isReInitializing := b; configChangePromptVisible := configChangePromptVisible s;
     hasShownLspWarning := hasShownLspWarning s; openPrompts := openPrompts s;
     openWarnings := openWarnings s; reloads := reloads s; inflight := inflight s;
     runs := runs s; backend := backend s; backendIsLsp := backendIsLsp s |}.
Definition set_configChangePromptVisible (b : bool) (s : State) : State :=
  {| isReInitializing := isReInitializing s; configChangePromptVisible := b;
     hasShownLspWarning := hasShownLspWarning s; openPrompts := openPrompts s;
     openWarnings := openWarnings s; reloads := reloads s; inflight := inflight s;
     runs := runs s; backend := backend s; backendIsLsp := backendIsLsp s |}.
Definition set_hasShownLspWarning (b : bool) (s : State) : State :=
  {| isReInitializing := isReInitializing s;
     configChangePromptVisible := configChangePromptVisible s;
     hasShownLspWarning := b; openPrompts := openPrompts s;
     openWarnings := openWarnings s; reloads := reloads s; inflight := inflight s;
     runs := runs s; backend := backend s; backendIsLsp := backendIsLsp s |}.
Definition set_messages (p w r : nat) (s : State) : State :=
  {| isReInitializing := isReInitializing s;
     configChangePromptVisible := configChangePromptVisible s;
     hasShownLspWarning := hasShownLspWarning s; openPrompts := p;
     openWarnings := w; reloads := r; inflight := inflight s;
     runs := runs s; backend := backend s; backendIsLsp := backendIsLsp s |}.
Definition set_inflight (n r : nat) (s : State) : State :=
  {| isReInitializing := isReInitializing s;
     configChangePromptVisible := configChangePromptVisible s;
     hasShownLspWarning := hasShownLspWarning s; openPrompts := openPrompts s;
     openWarnings := openWarnings s; reloads := reloads s; inflight := n;
     runs := r; backend := backend s; backendIsLsp := backendIsLsp s |}.
Definition set_backend (w : Lsp.World) (s : State) : State :=
  {| isReInitializing := isReInitializing s;
     configChangePromptVisible := configChangePromptVisible s;
     hasShownLspWarning := hasShownLspWarning s; openPrompts := openPrompts s;
     openWarnings := openWarnings s; reloads := reloads s; inflight := inflight s;
     runs := runs s; backend := w; backendIsLsp := backendIsLsp s |}.

Definition on_backend {A} (m : Eff Lsp.World A) : Eff State A :=
  zoom backend set_backend m.

Definition logInfo (msg : string) : Eff State unit := on_backend (Lsp.logInfo msg).
Definition logError (msg : string) (err : Thrown) : Eff State unit :=
  on_backend (Lsp.logError msg err).

(** [reInitializeBackend] up to its [await]: a call during a run
    returns at once. *)
Definition reInitializeBackend : Eff State unit :=
  busy ← gets isReInitializing;
  if (busy : bool) then mret tt
  else
    modify (set_isReInitializing true);;
    modify (fun s => set_inflight (S (inflight s)) (S (runs s)) s).

(** [reInitializeBackend] from its [await] on. *)
Definition reInitializeBackend_settled (r : Completion unit) : Eff State unit :=
  try_catch_finally
    (settled r;;
     logInfo "Extension active!")
    (fun err => logError "Error initializing:" err)
    (modify (set_isReInitializing false)).

(** [promptReInitializeBackend] up to the showing of the message
    "Dprint configuration changed. Refresh plugin to apply?". *)
Definition promptReInitializeBackend : Eff State unit :=
  visible ← gets configChangePromptVisible;
  if (visible : bool) then mret tt
  else
    modify (set_configChangePromptVisible true);;
    modify (fun s => set_messages (S (openPrompts s)) (openWarnings s) (reloads s) s).

(** The [then] callback of the refresh prompt. *)
Definition prompt_answered (selectedAction : option string) : Eff State unit :=
  modify (set_configChangePromptVisible false);;
  if decide (selectedAction = Some "Refresh") then reInitializeBackend else mret tt.

Definition onDidChangeConfiguration (affectsDprint : bool) (env : Lsp.Env) : Eff State unit :=
  if affectsDprint then
    backendMode ← gets backendIsLsp;
    shown ← gets hasShownLspWarning;
    if negb (Bool.eqb (ConfigurationWatch.isLsp env) backendMode) && negb shown then
      modify (fun s => set_messages (openPrompts s) (S (openWarnings s)) (reloads s) s);;
      modify (set_hasShownLspWarning true)
    else
      modify (set_hasShownLspWarning false);;
      promptReInitializeBackend
  else mret tt.

(** The [then] callback of the reload message. *)
Definition reloadMessage_answered (selectedAction : option string) : Eff State unit :=
  if decide (selectedAction = Some "Reload")
  then modify (fun s => set_messages (openPrompts s) (openWarnings s) (S (reloads s)) s)
  else mret tt.

(** One event is one turn of the event loop; an event that cannot
    happen in a state (an answer to a message that is not shown, a
    settling with no run in flight) leaves it as it is. *)
Inductive Event :=
| Restart                       (* dprint.restart, or the workspace folders changed *)
| FileChanged                   (* the watcher: a config file changed, appeared or went *)
| ConfigurationChanged (affectsDprint : bool) (env : Lsp.Env)
| PromptAnswered (selectedAction : option string)
| ReloadAnswered (selectedAction : option string)
| Settle (env : Lsp.Env).

Definition handle (e : Event) : Eff State unit :=
  match e with
  | Restart => reInitializeBackend
  | FileChanged => promptReInitializeBackend
  | ConfigurationChanged affectsDprint env => onDidChangeConfiguration affectsDprint env
  | PromptAnswered selectedAction =>
      n ← gets openPrompts;
      match n with
      | O => mret tt
      | S n' =>
          modify (fun s => set_messages n' (openWarnings s) (reloads s) s);;
          prompt_answered selectedAction
      end
  | ReloadAnswered selectedAction =>
      n ← gets openWarnings;
      match n with
      | O => mret tt
      | S n' =>
          modify (fun s => set_messages (openPrompts s) n' (reloads s) s);;
          reloadMessage_answered selectedAction
      end
  | Settle env =>
      n ← gets inflight;
      match n with
      | O => mret tt
      | S n' =>
          modify (fun s => set_inflight n' (runs s) s);;
          r ← on_backend (attempt (Lsp.reInitialize env));
          reInitializeBackend_settled r
      end
  end.

Definition step (e : Event) (s : State) : State := exec (handle e) s.

Definition run (es : list Event) (s : State) : State := fold_left (fun s e => step e s) es s.

(** [activate] with a backend whose [isLsp] is [mode]: fresh closures,
    then line 117 calls [reInitializeBackend()]. *)
Definition created (mode : bool) : State :=
  {| isReInitializing := false; configChangePromptVisible := false;
     hasShownLspWarning := false; openPrompts := 0; openWarnings := 0; reloads := 0;
     inflight := 0; runs := 0; backend := Lsp.empty; backendIsLsp := mode |}.

Definition activate (mode : bool) : State := exec reInitializeBackend (created mode).

(** What the variables and the screen always satisfy. *)
Record prompt_inv (s : State) : Prop := {
  inv_prompt : openPrompts s = if configChangePromptVisible s then 1 else 0;
  inv_flag : inflight s = if isReInitializing s then 1 else 0;
}.

(** The events by which the user asks for a reinitialization. *)
Definition asks_run (e : Event) : bool :=
  match e with
  | Restart => true
  | PromptAnswered selectedAction => bool_decide (selectedAction = Some "Refresh")
  | _ => false
  end.

End Prompting.

(** ** src/extension.ts: the global plugin state

    [GlobalPluginState] (lines 163-179), [deactivate] (273-275),
    [getAndSetNewGlobalState] (277-296) and [clearGlobalState]
    (298-301).  The backend is any implementation of the
    [ExtensionBackend] interface; its [dispose] may reject. *)

Module Global.

Definition Channel := nat.

(** The members of [ExtensionBackend] the file uses. *)
Class ExtensionBackend (B E : Type) := {
  backend_isLsp : B -> bool;
  backend_reInitialize : E -> Eff B unit;
  backend_dispose : Eff B unit;
}.

(** The backend of [src/lsp.ts]; [env] holds what the collaborators
    answer to its [dispose]. *)
Definition Lsp_ExtensionBackend (env : Lsp.Env) : ExtensionBackend Lsp.World Lsp.Env := {|
  backend_isLsp := fun _ => Lsp.isLsp;
  backend_reInitialize := Lsp.reInitialize;
  backend_dispose := Lsp.dispose env;
|}.

Section WithBackend.
Context {B E : Type} `{!ExtensionBackend B E}.

(** The logger of the source record wraps the output channel and has no
    state of its own. *)
Record GlobalPluginState := {
  outputChannel : Channel;
  extensionBackend : B;
}.

(** The module variable [globalState], the output channels created so
    far, each with whether it has been disposed, and the backends on
    which [dispose()] has been awaited, in the state it left them. *)
Record Process := {
  globalState : option GlobalPluginState;
  channels : gmap Channel bool;
  disposedBackends : list B;
}.

Definition set_globalState (g : option GlobalPluginState) (p : Process) : Process :=
  {| globalState := g; channels := channels p; disposedBackends := disposedBackends p |}.
Definition set_channels (f : gmap Channel bool -> gmap Channel bool) (p : Process) : Process :=
  {| globalState := globalState p; channels := f (channels p);
     disposedBackends := disposedBackends p |}.
Definition add_disposedBackend (b : B) (p : Process) : Process :=
  {| globalState := globalState p; channels := channels p;
     disposedBackends := (disposedBackends p ++ [b])%list |}.

(** What the collaborators answer during one [getAndSetNewGlobalState]. *)
Record Startup := {
  createOutputChannel : Completion unit;
  newLogger : Completion unit;
  newApprovedConfigPaths : Completion unit;
  workspace : Lsp.Env;
  activateLsp : Completion B;
  activateLegacy : Completion B;
}.

(** [vscode.window.createOutputChannel("dprint")] *)
Definition create_channel (env : Startup) : Eff Process Channel :=
  settled (createOutputChannel env);;
  c ← gets (fun p => fresh (dom (channels p)));
  modify (set_channels (insert c false));;
  mret c.

(** [outputChannel.dispose()] *)
Definition dispose_channel (c : Channel) : Eff Process unit :=
  modify (set_channels (insert c true)).

(** [await this.extensionBackend?.dispose()] *)
Definition dispose_backend (b : B) : Eff Process unit :=
  fun p => let '(b', r) := backend_dispose b in (add_disposedBackend b' p, r).

Definition GlobalPluginState_dispose (g : GlobalPluginState) : Eff Process unit :=
  try_catch_finally
    (dispose_backend (extensionBackend g))
    (fun _ => mret tt)
    (mret tt);;
  dispose_channel (outputChannel g).

Definition clearGlobalState : Eff Process unit :=
  g ← gets globalState;
  match g return Eff Process unit with
  | Some g => GlobalPluginState_dispose g
  | None => mret tt
  end;;
  modify (set_globalState None).

Definition deactivate : Eff Process unit := clearGlobalState.

(** The [try] block starts with the creation of the channel: when that
    throws, [outputChannel] is still undefined and the [catch] block
    only rethrows; from then on the [catch] block disposes the channel
    before it rethrows. *)
Definition getAndSetNewGlobalState (env : Startup) : Eff Process GlobalPluginState :=
  clearGlobalState;;
  outputChannel ← create_channel env;
  backend ← try_catch_finally
               (settled (newLogger env);;
                settled (newApprovedConfigPaths env);;
                if ConfigurationWatch.isLsp (workspace env)
                then settled (activateLsp env)
                else settled (activateLegacy env))
               (fun err => dispose_channel outputChannel;; throw err)
               (mret tt);
  let g := {| outputChannel := outputChannel; extensionBackend := backend |} in
  modify (set_globalState (Some g));;
  mret g.

Definition initial : Process :=
  {| globalState := None; channels := ∅; disposedBackends := [] |}.

(** The host's calls: [activate] as far as the global state goes, and
    [deactivate]. *)
Inductive Op :=
| Activate (env : Startup)
| Deactivate.

Definition apply_op (o : Op) (p : Process) : Process :=
  match o with
  | Activate env => exec (getAndSetNewGlobalState env) p
  | Deactivate => exec deactivate p
  end.

Definition run_ops (ops : list Op) (p : Process) : Process :=
  fold_left (fun p o => apply_op o p) ops p.

(** The output channels created and not disposed. *)
Definition live_channels (p : Process) : gset Channel :=
  dom (filter (fun kv => kv.2 = false) (channels p)).

(** The only live channel is the one of the global state. *)
Definition process_inv (p : Process) : Prop :=
  forall c, channels p !! c = Some false <->
            exists g, globalState p = Some g /\ outputChannel g = c.

(** The collaborators' answers in the order the [try] block asks for
    them: the backend made, or the first exception. *)
Definition startup_outcome (env : Startup) : Completion B :=
  match createOutputChannel env with
  | Throw e => Throw e
  | Normal _ =>
      match newLogger env with
      | Throw e => Throw e
      | Normal _ =>
          match newApprovedConfigPaths env with
          | Throw e => Throw e
          | Normal _ =>
              if ConfigurationWatch.isLsp (workspace env)
              then activateLsp env else activateLegacy env
          end
      end
  end.

(** The backends made and not yet disposed of: the current one. *)
Definition backends_in_use (p : Process) : nat :=
  match globalState p with Some _ => 1 | None => 0 end.

Definition succeeds (o : Op) : bool :=
  match o with
  | Activate env => match startup_outcome env with Normal _ => true | Throw _ => false end
  | Deactivate => false
  end.

End WithBackend.

(** A start-up in which every collaborator answers, with the language
    server backend. *)
Definition startup_lsp : Startup (B := Lsp.World) := {|
  createOutputChannel := Normal tt;
  newLogger := Normal tt;
  newApprovedConfigPaths := Normal tt;
  workspace := Lsp.env_ok;
  activateLsp := Normal Lsp.empty;
  activateLegacy := Throw (TypeError "activateLegacy is not reached");
|}.

Arguments GlobalPluginState B : clear implicits.
Arguments Process B : clear implicits.
Arguments Startup B : clear implicits.
Arguments Op B : clear implicits.

End Global.

(** ** Proof automation *)

Ltac unfold_eff :=
  unfold settled, attempt, zoom, try_catch_finally, exec, result in *;
  unfold mbind, mret, Eff_bind, Eff_ret, eff_bind, eff_ret, gets, modify, throw in *.

(** ** Properties of the backend session *)

Module LspFacts.
Import Lsp.

Lemma elem_of_live_handles w h : h ∈ live_handles w <-> live w h.
Proof.
  unfold live_handles, live. rewrite elem_of_dom. unfold is_Some.
  setoid_rewrite map_lookup_filter_Some. naive_solver.
Qed.

Lemma elem_of_running_handles w h :
  h ∈ running_handles w <-> exists c, heap w !! h = Some c /\ state c = Running.
Proof.
  unfold running_handles. rewrite elem_of_dom. unfold is_Some.
  setoid_rewrite map_lookup_filter_Some. naive_solver.
Qed.

Lemma handle_inv_empty : handle_inv empty.
Proof.
  split; unfold live; cbn; [intros h (c & Hc & _) | intros h Hc | intros h c Hc _];
    by rewrite ?lookup_empty in Hc.
Qed.

Lemma live_handles_owned w :
  handle_inv w ->
  live_handles w = match client w with Some h => {[h]} | None => ∅ end.
Proof.
  intros [Ho Hc _]. apply set_eq. intros h. rewrite elem_of_live_handles.
  destruct (client w) as [h0|] eqn:E.
  - rewrite elem_of_singleton. split; [intros Hl; apply Ho in Hl; congruence|].
    intros ->. by apply Hc.
  - split; [intros Hl; apply Ho in Hl; congruence | set_solver].
Qed.

Lemma running_handles_live w : handle_inv w -> running_handles w ⊆ live_handles w.
Proof.
  intros [_ _ Hr] h. rewrite elem_of_running_handles, elem_of_live_handles.
  intros (c & Hc & Hs). exists c. eauto.
Qed.

Lemma live_handles_ext w w' : heap w = heap w' -> live_handles w = live_handles w'.
Proof. unfold live_handles. by intros ->. Qed.

Lemma running_handles_ext w w' : heap w = heap w' -> running_handles w = running_handles w'.
Proof. unfold running_handles. by intros ->. Qed.

Lemma handle_inv_ext w w' :
  client w' = client w -> heap w' = heap w -> handle_inv w -> handle_inv w'.
Proof.
  intros Hc Hh [Ho Hcl Hr]. split; unfold live in *; rewrite ?Hc, ?Hh; done.
Qed.

Ltac unfold_lsp :=
  unfold reInitialize, dispose, release_client, workspaceHasConfigFile, first_folder_uri,
    first_folder, combined_config, resolve, new_LanguageClient, client_start, client_stop,
    client_dispose, discover, ancestors, logInfo, logError, call in *.

(** *** The release of the previous client *)

Lemma release_client_completes env w :
  result (release_client env) w = Normal tt <-> client w = None \/ stop env = Normal tt.
Proof.
  unfold_lsp. unfold_eff.
  destruct (client w) as [h|]; [|by split; [left|]].
  destruct (stop env) as [[]|e]; cbn; [by split; [right|]|].
  split; [done|]. by intros [?|?].
Qed.

Lemma release_client_normal env w :
  result (release_client env) w = Normal tt ->
  release_client env w = (released env w, Normal tt).
Proof.
  unfold released, exec, result. destruct (release_client env w) as [w1 r]. cbn.
  by intros ->.
Qed.

Lemma release_client_rejected env w e :
  result (release_client env) w = Throw e ->
  exists h, client w = Some h /\ stop env = Throw e /\
            release_client env w = (add_call (ClientStop h 2000) w, Throw e).
Proof.
  unfold_lsp. unfold_eff.
  destruct (client w) as [h|]; [|done].
  destruct (stop env) as [[]|e']; cbn; [done|]. intros [= <-]. by exists h.
Qed.

Lemma released_unassigned env w : client w = None -> released env w = w.
Proof. intros H0. unfold released. unfold_lsp. unfold_eff. by rewrite H0. Qed.

Section Released.
Context (env : Env) (w : World).
Hypothesis Hok : result (release_client env) w = Normal tt.

Lemma released_client : client (released env w) = None.
Proof.
  revert Hok. unfold released. unfold_lsp. unfold_eff.
  destruct (client w) eqn:E; [|done]. by destruct (stop env) as [[]|e].
Qed.

Lemma released_log : log (released env w) = log w.
Proof.
  revert Hok. unfold released. unfold_lsp. unfold_eff.
  destruct (client w) eqn:E; [|done]. by destruct (stop env) as [[]|e].
Qed.

Lemma released_calls :
  calls (released env w) = (calls w ++ release_calls (client w))%list.
Proof.
  revert Hok. unfold released. unfold_lsp. unfold_eff.
  destruct (client w) eqn:E; cbn; [|by rewrite app_nil_r].
  destruct (stop env) as [[]|e]; cbn; [|done]. by rewrite <- app_assoc.
Qed.

Lemma released_dom : dom (heap (released env w)) = dom (heap w).
Proof.
  revert Hok. unfold released. unfold_lsp. unfold_eff.
  destruct (client w) eqn:E; cbn; [|done].
  destruct (stop env) as [[]|e]; cbn; [|done]. by rewrite !dom_alter_L.
Qed.

Lemma released_disposed h c :
  handle_inv w -> heap (released env w) !! h = Some c ->
  disposed c = true /\ state c <> Running.
Proof.
  intros [Ho _ Hr]. revert Hok. unfold released. unfold_lsp. unfold_eff.
  assert (Hother : client w <> Some h -> heap w !! h = Some c ->
                   disposed c = true /\ state c <> Running).
  { intros Hne Hc. destruct (disposed c) eqn:D.
    - split; [done|]. intros Hs. apply (Hr h c Hc) in Hs. congruence.
    - destruct Hne. apply Ho. by exists c. }
  destruct (client w) as [h0|] eqn:E; cbn; [|by intros _; apply Hother].
  destruct (stop env) as [[]|e]; cbn; [|done]. intros _.
  rewrite !lookup_alter. case_decide as Hd; [|apply Hother; congruence].
  subst h0. rewrite decide_True by done.
  destruct (heap w !! h); cbn; [|done]. by intros [= <-].
Qed.

Lemma live_handles_released : handle_inv w -> live_handles (released env w) = ∅.
Proof.
  intros Hw. apply set_eq. intros h. rewrite elem_of_live_handles.
  split; [|set_solver]. intros (c & Hl & Hdis).
  apply (released_disposed h c Hw) in Hl as [? ?]. congruence.
Qed.

Lemma running_handles_released : handle_inv w -> running_handles (released env w) = ∅.
Proof.
  intros Hw. apply set_eq. intros h. rewrite elem_of_running_handles.
  split; [|set_solver]. intros (c & Hl & Hrun).
  apply (released_disposed h c Hw) in Hl as [? ?]. congruence.
Qed.

Lemma reInitialize_released :
  reInitialize env w =
  (found ← workspaceHasConfigFile env;
   if negb found then
     logInfo "Configuration file not found."
   else
     rootUri ← first_folder_uri env;
     config ← combined_config env (default [] (workspaceFolders env));
     cmdPath ← resolve env {| ra_pathInfo := pathInfo config; ra_cwd := rootUri;
                              ra_configUri := None; ra_verbose := verbose config |};
     let args := (["lsp"] ++ (if verbose config then ["--verbose"] else []))%list in
     let serverOptions := {| command := cmdPath; args := args; shell := true |} in
     h ← new_LanguageClient "dprint" serverOptions "file";
     modify (set_client (Some h));;
     client_start env h;;
     logInfo "Started experimental language server.") (released env w).
Proof.
  unfold reInitialize. unfold mbind at 1. unfold Eff_bind, eff_bind.
  by rewrite release_client_normal.
Qed.

Lemma dispose_released :
  dispose env w = (add_call ResourceStoresDispose (released env w), Normal tt).
Proof.
  unfold dispose. unfold mbind. unfold Eff_bind, eff_bind.
  by rewrite release_client_normal.
Qed.

End Released.

(** When [stop] rejects, both operations reject with what it threw,
    having done nothing else. *)
Lemma reInitialize_rejected env w e :
  result (release_client env) w = Throw e ->
  exists h, client w = Some h /\ stop env = Throw e /\
            reInitialize env w = (add_call (ClientStop h 2000) w, Throw e).
Proof.
  intros Hrel. destruct (release_client_rejected env w e Hrel) as (h & Hc & Hs & Hr).
  exists h. split; [done|]. split; [done|].
  unfold reInitialize. unfold mbind at 1. unfold Eff_bind, eff_bind. by rewrite Hr.
Qed.

Lemma dispose_rejected env w e :
  result (release_client env) w = Throw e ->
  exists h, client w = Some h /\ stop env = Throw e /\
            dispose env w = (add_call (ClientStop h 2000) w, Throw e).
Proof.
  intros Hrel. destruct (release_client_rejected env w e Hrel) as (h & Hc & Hs & Hr).
  exists h. split; [done|]. split; [done|].
  unfold dispose. unfold mbind at 1. unfold Eff_bind, eff_bind. by rewrite Hr.
Qed.

Lemma workspaceHasConfigFile_result env w :
  result (workspaceHasConfigFile env) w =
  Normal (if (0 <? length (discoverWorkspaceConfigFiles env 1))%nat then true
          else match first_folder env with
               | Some f => ancestorDirsContainConfigFile env (uri f)
               | None => false
               end).
Proof.
  unfold_lsp. unfold_eff.
  destruct (0 <? length (discoverWorkspaceConfigFiles env 1))%nat; [done|].
  by destruct (workspaceFolders env) as [[|f fs]|].
Qed.

Ltac leaf :=
  rewrite <- ?app_assoc; cbn [app];
  eexists; split; [reflexivity|]; split; [reflexivity|].

Ltac found :=
  rewrite workspaceHasConfigFile_result; unfold first_folder;
  repeat match goal with H : _ = _ |- _ => rewrite H end;
  cbn [head uri];
  repeat match goal with H : _ = _ |- _ => rewrite H end.

Ltac from_resolve env :=
  let cmd := fresh "cmd" in
  let e := fresh "e" in
  destruct (resolveCmdPath env _) as [cmd|e] eqn:?; cbn;
  [ destruct (start env) as [[]|?] eqn:?; cbn; leaf;
    (eapply Constructed; cbn;
     [by found|eassumption| |done|by rewrite alter_insert_eq|done|]; [done|]);
    [left; done | right; eauto 10]
  | leaf; eapply NotConstructed; cbn; eauto; by found ].

Lemma reInitialize_ending env w :
  result (release_client env) w = Normal tt ->
  exists cs,
    calls (exec (reInitialize env) w) = (calls (released env w) ++ cs)%list /\
    forallb (fun c => negb (is_release c)) cs = true /\
    ending env (released env w) (exec (reInitialize env) w)
      (result (reInitialize env) w) cs.
Proof.
  intros Hok. unfold exec, result. rewrite reInitialize_released by done.
  generalize (released env w). clear w Hok. intros w.
  unfold_lsp. unfold_eff.
  destruct (0 <? length (discoverWorkspaceConfigFiles env 1))%nat eqn:Hlen; cbn.
  - destruct (workspaceFolders env) as [[|f fs]|] eqn:Hwf; cbn.
    + leaf. eapply NotConstructed; cbn; eauto 10. by found.
    + from_resolve env.
    + from_resolve env.
  - destruct (workspaceFolders env) as [[|f fs]|] eqn:Hwf; cbn.
    + leaf. eapply ConfigAbsent; cbn; eauto. by found.
    + destruct (ancestorDirsContainConfigFile env (uri f)) eqn:Hanc; cbn.
      * from_resolve env.
      * leaf. eapply ConfigAbsent; cbn; eauto. by found.
    + leaf. eapply ConfigAbsent; cbn; eauto. by found.
Qed.

(** *** Consequences for the handle *)

Lemma ending_inv env w1 w' r cs :
  client w1 = None ->
  (forall h c, heap w1 !! h = Some c -> disposed c = true /\ state c <> Running) ->
  ending env w1 w' r cs -> handle_inv w'.
Proof.
  intros Hc Hd [Hf Hr Hc' Hh _ _ | e Hf Hr Hc' Hh _ _ _ | a cmd c Hf _ _ Hc' Hh Hdc _].
  1,2: split; unfold live; rewrite ?Hc', ?Hh, ?Hc;
    [intros h (c & Hl & Hdis); apply Hd in Hl as [? ?]; congruence
    | intros h [=]
    | intros h c Hl Hrun; apply Hd in Hl as [? ?]; congruence].
  split; unfold live; rewrite ?Hc', ?Hh.
  - intros h (c' & Hl & Hdis). rewrite lookup_insert in Hl.
    case_decide; [congruence|]. apply Hd in Hl as [? ?]. congruence.
  - intros h [= <-]. exists c. by rewrite lookup_insert_eq.
  - intros h c' Hl Hrun. rewrite lookup_insert in Hl.
    case_decide; [congruence|]. apply Hd in Hl as [? ?]. congruence.
Qed.

Lemma reInitialize_inv env w : handle_inv w -> handle_inv (exec (reInitialize env) w).
Proof.
  intros Hw. destruct (result (release_client env) w) as [[]|e] eqn:Hrel.
  - destruct (reInitialize_ending env w Hrel) as (cs & _ & _ & He).
    eapply ending_inv; [by apply released_client | | exact He].
    intros h c. by apply released_disposed.
  - destruct (reInitialize_rejected env w e Hrel) as (h & _ & _ & Hr).
    unfold exec. rewrite Hr. cbn [fst]. by apply (handle_inv_ext w).
Qed.

Lemma dispose_inv env w : handle_inv w -> handle_inv (exec (dispose env) w).
Proof.
  intros Hw. destruct (result (release_client env) w) as [[]|e] eqn:Hrel.
  - unfold exec. rewrite dispose_released by done. cbn.
    pose proof (released_client env w Hrel) as Hc.
    pose proof (fun h c => released_disposed env w Hrel h c Hw) as Hd.
    split; unfold live; cbn; rewrite ?Hc.
    + intros h (c & Hl & Hdis). apply Hd in Hl as [? ?]. congruence.
    + intros h [=].
    + intros h c Hl Hrun. apply Hd in Hl as [? ?]. congruence.
  - destruct (dispose_rejected env w e Hrel) as (h & _ & _ & Hr).
    unfold exec. rewrite Hr. cbn [fst]. by apply (handle_inv_ext w).
Qed.

Lemma reInitialize_calls env w :
  result (release_client env) w = Normal tt ->
  exists cs,
    calls (exec (reInitialize env) w) = (calls w ++ release_calls (client w) ++ cs)%list /\
    forallb (fun c => negb (is_release c)) cs = true.
Proof.
  intros Hok. destruct (reInitialize_ending env w Hok) as (cs & Hcs & Hrel & _).
  exists cs. split; [|done]. by rewrite Hcs, released_calls, <- app_assoc.
Qed.

Lemma reInitialize_old_disposed env w h :
  handle_inv w -> result (release_client env) w = Normal tt ->
  h ∈ dom (heap w) -> h ∉ live_handles (exec (reInitialize env) w).
Proof.
  intros Hw Hok Hdom. rewrite elem_of_live_handles. intros (c & Hl & Hdis).
  rewrite <- (released_dom env w Hok) in Hdom.
  assert (Hrel : heap (released env w) !! h = Some c -> False).
  { intros Hc. apply (released_disposed env w Hok h c Hw) in Hc as [? ?]. congruence. }
  destruct (reInitialize_ending env w Hok) as (cs & _ & _ & He).
  destruct He as [_ _ _ Hh _ _ | e _ _ _ Hh _ _ _ | a cmd c' _ _ _ _ Hh _ _];
    rewrite Hh in Hl; [by apply Hrel | by apply Hrel |].
  rewrite lookup_insert in Hl. case_decide as Hfresh; [|by apply Hrel].
  subst h. by apply is_fresh in Hdom.
Qed.

Lemma assigned_live w w' h :
  handle_inv w -> client w = Some h -> heap w' = heap w -> h ∈ live_handles w'.
Proof.
  intros Hw Hc Hh. rewrite (live_handles_ext w' w Hh).
  apply elem_of_live_handles. by apply Hw.
Qed.

Lemma at_most_one_live w : handle_inv w -> size (live_handles w) <= 1.
Proof.
  intros Hw. rewrite (live_handles_owned w Hw).
  destruct (client w); [by rewrite size_singleton | rewrite size_empty; lia].
Qed.

Lemma running_handles_insert w' m hn c :
  (forall h c', m !! h = Some c' -> state c' <> Running) ->
  heap w' = <[hn := c]> m ->
  running_handles w' = if decide (state c = Running) then {[hn]} else ∅.
Proof.
  intros Hm Hh. apply set_eq. intros h. rewrite elem_of_running_handles, Hh.
  split.
  - intros (c' & Hl & Hrun). rewrite lookup_insert in Hl. case_decide as Hd.
    + injection Hl as <-. rewrite decide_True by done. set_solver.
    + by apply Hm in Hl.
  - case_decide as Hrun; [|set_solver]. rewrite elem_of_singleton. intros ->.
    exists c. by rewrite lookup_insert_eq.
Qed.

(** Every state the session can be in between two calls satisfies the
    handle invariant. *)
Lemma handle_inv_reachable ops : handle_inv (run_ops ops empty).
Proof.
  unfold run_ops. generalize handle_inv_empty. generalize empty.
  induction ops as [|o ops IH]; intros w Hw; [done|].
  cbn. apply IH. destruct o; [by apply reInitialize_inv | by apply dispose_inv].
Qed.

(** *** The four paths of one call *)

Ltac trace_eq :=
  eexists; split; [rewrite <- ?app_assoc; cbn [app]; reflexivity|].

Ltac rewrite_answers :=
  repeat match goal with H : _ = _ |- _ => rewrite H end.

Ltac settle :=
  rewrite ?workspaceHasConfigFile_result;
  unfold LspTrace.full_sequence, LspTrace.ancestor_query, LspTrace.resolve_args,
    LspTrace.new_client, LspTrace.server_options, LspTrace.combined, first_folder;
  rewrite_answers; cbn; rewrite_answers;
  first [reflexivity | discriminate | by rewrite alter_insert_eq].

Ltac constructed :=
  trace_eq; eapply LspTrace.PathConstructed;
  [ settle | settle | settle | settle | settle | settle
  | first [left; by eauto 10 | right; by eauto 10] ].

Ltac unresolved := trace_eq; eapply LspTrace.PathUnresolved; settle.

Ltac absent := trace_eq; eapply LspTrace.PathConfigAbsent; settle.

Ltac from_resolver env :=
  destruct (resolveCmdPath env _) as [?cmd|?e] eqn:?; cbn;
  [ destruct (start env) as [[]|?e] eqn:?; cbn; constructed | unresolved ].

(** Once the previous client is released, one call of [reInitialize]
    follows one of the four paths. *)
Lemma reInitialize_path env w :
  result (release_client env) w = Normal tt ->
  exists cs,
    calls (exec (reInitialize env) w) = (calls (released env w) ++ cs)%list /\
    LspTrace.path env (released env w) (exec (reInitialize env) w)
      (result (reInitialize env) w) cs.
Proof.
  intros Hok. unfold exec, result. rewrite reInitialize_released by done.
  generalize (released env w). clear w Hok. intros w.
  unfold_lsp. unfold_eff.
  destruct (discoverWorkspaceConfigFiles env 1) as [|u us] eqn:Hd; cbn.
  - destruct (workspaceFolders env) as [[|f fs]|] eqn:Hwf; cbn.
    + absent.
    + destruct (ancestorDirsContainConfigFile env (uri f)) eqn:Hanc; cbn.
      * from_resolver env.
      * absent.
    + absent.
  - destruct (workspaceFolders env) as [[|f fs]|] eqn:Hwf; cbn.
    + trace_eq. eapply LspTrace.PathNoRootFolder; settle.
    + from_resolver env.
    + from_resolver env.
Qed.

(** *** The claims about the session *)

(** C5, as stated, fails: after a start that failed, a [stop] that
    rejects makes the next [reInitialize] reject at once.  The client
    of the earlier cycle is then neither disposed nor unassigned: after
    the two calls it is still live. *)
Lemma stop_failure_keeps_client :
  let w1 := exec (reInitialize env_start_fails) empty in
  let w2 := exec (reInitialize env_stop_rejects) w1 in
  client w1 = Some 0 /\
  result (reInitialize env_stop_rejects) w1
    = Throw (ShutdownFailed "Client is not running and can't be stopped.") /\
  client w2 = Some 0 /\
  (disposed <$> heap w2 !! 0) = Some false /\
  calls w2 = (calls w1 ++ [ClientStop 0 2000])%list /\
  ~ (forall h, h ∈ dom (heap w1) -> h ∉ live_handles w2).
Proof.
  cbv zeta. split_and!; try (vm_compute; reflexivity).
  intros Hall. apply (Hall 0).
  - apply elem_of_dom. eexists. vm_compute. reflexivity.
  - apply elem_of_live_handles. eexists. split; vm_compute; reflexivity.
Qed.

(** C5, amended. [reInitialize] can be called in any state of the
    session.  Its first step awaits [stop] (with the 2000 ms timeout)
    on whatever client is assigned.  When that resolves, or no client
    is assigned, the client is disposed and unassigned, which leaves no
    live client; only then are the other calls made, among them the
    construction of a new client, and none of them is a stop or a
    dispose, so that no client that existed before the call is live
    after it.  When [stop] rejects, [reInitialize] rejects with what it
    threw and does nothing else: the client stays assigned, as it was,
    and no new one is attempted.  Either way, after two successive
    completed calls at most one client is live: the one assigned to
    [client], if any. *)
Theorem reInitialize_disposes_first (env1 env2 : Env) (w : World) :
  handle_inv w ->
  let w0 := exec (release_client env1) w in
  let w1 := exec (reInitialize env1) w in
  let w2 := exec (reInitialize env2) w1 in
  (result (release_client env1) w = Normal tt <-> client w = None \/ stop env1 = Normal tt) /\
  (result (release_client env1) w = Normal tt ->
     (client w0 = None /\ live_handles w0 = ∅ /\
      calls w0 = (calls w ++ release_calls (client w))%list) /\
     (exists cs1,
        calls w1 = (calls w0 ++ cs1)%list /\
        forallb (fun c => negb (is_release c)) cs1 = true) /\
     (forall h, h ∈ dom (heap w) -> h ∉ live_handles w1)) /\
  (forall e, result (release_client env1) w = Throw e ->
     stop env1 = Throw e /\
     result (reInitialize env1) w = Throw e /\
     (exists h, client w = Some h /\ h ∈ live_handles w1) /\
     client w1 = client w /\ heap w1 = heap w /\ log w1 = log w /\
     calls w1 = (calls w ++ stop_calls (client w))%list) /\
  (result (release_client env2) w1 = Normal tt ->
     (exists cs2,
        calls w2 = (calls w1 ++ release_calls (client w1) ++ cs2)%list /\
        forallb (fun c => negb (is_release c)) cs2 = true) /\
     (forall h, h ∈ dom (heap w1) -> h ∉ live_handles w2)) /\
  size (live_handles w2) <= 1 /\
  live_handles w2 = match client w2 with Some h => {[h]} | None => ∅ end.
Proof.
  intros Hw w0 w1 w2.
  assert (Hw1 : handle_inv w1) by by apply reInitialize_inv.
  assert (Hw2 : handle_inv w2) by by apply reInitialize_inv.
  change w0 with (released env1 w).
  split_and!.
  - apply release_client_completes.
  - intros Hok. split_and!.
    + by apply released_client.
    + by apply live_handles_released.
    + by apply released_calls.
    + destruct (reInitialize_ending env1 w Hok) as (cs1 & H1 & R1 & _). by exists cs1.
    + intros h. by apply reInitialize_old_disposed.
  - intros e Hrel. destruct (reInitialize_rejected env1 w e Hrel) as (h & Hc & Hs & Hr).
    subst w1. unfold exec, result. rewrite Hr, Hc. cbn. split_and!; try done.
    exists h. split; [done|]. by apply (assigned_live w).
  - intros Hok. split.
    + destruct (reInitialize_calls env2 w1 Hok) as (cs2 & H2 & R2). by exists cs2.
    + intros h. by apply reInitialize_old_disposed.
  - by apply at_most_one_live.
  - by apply live_handles_owned.
Qed.

(** C6. Config-absent path: when [workspaceHasConfigFile] answers
    false, which presupposes that the release of the previous client
    has completed, [reInitialize] returns normally, leaves [client]
    undefined with no live and no running client, and logs exactly
    "Configuration file not found.". *)
Theorem reInitialize_config_absent (env : Env) (w : World) :
  handle_inv w ->
  result (release_client env) w = Normal tt ->
  result (workspaceHasConfigFile env) w = Normal false ->
  let w' := exec (reInitialize env) w in
  result (reInitialize env) w = Normal tt /\
  client w' = None /\
  live_handles w' = ∅ /\
  running_handles w' = ∅ /\
  log w' = (log w ++ [Info "Configuration file not found."])%list /\
  exists cs, calls w' = (calls w ++ release_calls (client w) ++ cs)%list /\
             forallb (fun c => negb (is_construct c)) cs = true.
Proof.
  intros Hw Hok Habs w'.
  rewrite workspaceHasConfigFile_result in Habs.
  destruct (reInitialize_ending env w Hok) as (cs & Hcs & _ & He).
  fold w' in Hcs, He.
  destruct He as [_ Hr Hc Hh Hl Hn | e Hf | a cmd c Hf];
    [|rewrite workspaceHasConfigFile_result in Hf; congruence ..].
  rewrite released_client in Hc by done. rewrite released_log in Hl by done.
  rewrite (live_handles_ext w' (released env w) Hh),
    (running_handles_ext w' (released env w) Hh).
  rewrite live_handles_released, running_handles_released by done.
  repeat split; try done.
  exists cs. split; [|done]. by rewrite Hcs, released_calls, <- app_assoc.
Qed.

(** C8, as stated, fails: when [client.start()] rejects, [client]
    stays assigned although no client is running. *)
Lemma start_failure_keeps_handle :
  let w' := exec (reInitialize env_start_fails) empty in
  result (reInitialize env_start_fails) empty
    = Throw (ConnectionFailed "spawn dprint ENOENT") /\
  client w' = Some 0 /\
  running_handles w' = ∅ /\
  ~ (is_Some (client w') <-> running_handles w' <> ∅).
Proof.
  assert (Hrun : running_handles (exec (reInitialize env_start_fails) empty) = ∅)
    by (vm_compute; reflexivity).
  cbv zeta. rewrite Hrun. repeat split; try reflexivity.
  intros [Hiff _]. apply Hiff; [|reflexivity]. by exists 0.
Qed.

(** C8, amended. In a call of [reInitialize] whose release of the
    previous client has completed: if the call gets as far as
    [client.start()] and that rejects with [e], the call rejects with
    [e] and no client is running, but [client] stays assigned to the
    client that failed to start, which is new, not disposed and the only
    live one.  After a normal return [client] is assigned exactly when a
    client is running, and it is that client; after an error nothing is
    running, and [client] is assigned only when [client.start()] was
    what failed.  In every call, also one in which [stop] rejects, a
    running client is the one assigned to [client]. *)
Theorem reInitialize_handle_running (env : Env) (w : World) :
  handle_inv w ->
  let w' := exec (reInitialize env) w in
  let r := result (reInitialize env) w in
  (result (release_client env) w = Normal tt ->
     (forall cmd e,
        result (workspaceHasConfigFile env) w = Normal true ->
        workspaceFolders env <> Some [] ->
        resolveCmdPath env (LspTrace.resolve_args env) = Normal cmd ->
        start env = Throw e ->
        r = Throw e /\
        exists h,
          client w' = Some h /\ (h ∉ dom (heap w)) /\
          heap w' !! h = Some (LspTrace.new_client env cmd StartFailed) /\
          live_handles w' = {[h]} /\ running_handles w' = ∅) /\
     (r = Normal tt ->
        running_handles w' = match client w' with Some h => {[h]} | None => ∅ end) /\
     (forall e, r = Throw e -> running_handles w' = ∅) /\
     (forall e, r = Throw e -> is_Some (client w') ->
        start env = Throw e /\
        exists h c, client w' = Some h /\ heap w' !! h = Some c /\
                    state c = StartFailed /\ disposed c = false /\
                    live_handles w' = {[h]})) /\
  (forall h, h ∈ running_handles w' -> client w' = Some h).
Proof.
  intros Hw w' r.
  assert (Hw' : handle_inv w') by by apply reInitialize_inv.
  split.
  2:{ intros h Hh. apply (running_handles_live w' Hw'), elem_of_live_handles in Hh.
      by apply Hw'. }
  intros Hok.
  pose proof (fun h c Hl => proj2 (released_disposed env w Hok h c Hw Hl)) as Hnr.
  destruct (reInitialize_path env w Hok) as (cs & _ & Hp).
  fold w' r in Hp.
  pose proof (released_client env w Hok) as Hnone.
  destruct Hp as [Hf Hr Hc Hh _ _ | Hwf _ Hr Hc Hh _ _ | e Hf _ Hres Hr Hc Hh _ _
                 | cmd st Hf _ Hres Hc Hh _ Hst].
  1,2,3: rewrite Hnone in Hc;
    rewrite Hc, (running_handles_ext w' (released env w) Hh), running_handles_released by done;
    rewrite Hr; split_and!; try done;
    try (intros e' _ [? [=]]);
    try (intros cmd' e' Hf' Hwf' Hres' _; rewrite ?workspaceHasConfigFile_result in *;
         congruence).

  rewrite (running_handles_insert w' _ _ _ Hnr Hh), Hc. cbn [LspTrace.new_client state].
  assert (Hlive : live_handles w' = {[fresh (dom (heap (released env w)))]})
    by by rewrite (live_handles_owned w' Hw'), Hc.
  destruct Hst as [(Hs & -> & Hr & _) | (e & Hs & -> & Hr & _)]; rewrite Hr.
  - rewrite decide_True by done. split_and!; try done.
    intros cmd' e' _ _ _ Hs'. congruence.
  - rewrite decide_False by done. split_and!; try done.
    + intros cmd' e' _ _ Hres' Hs'. rewrite Hres in Hres'. injection Hres' as <-.
      rewrite Hs in Hs'. injection Hs' as <-. split; [done|].
      exists (fresh (dom (heap (released env w)))). split_and!; try done.
      * rewrite released_dom by done. apply is_fresh.
      * by rewrite Hh, lookup_insert_eq.
    + intros e' [= <-] _. split; [done|].
      exists (fresh (dom (heap (released env w)))), (LspTrace.new_client env cmd StartFailed).
      rewrite Hh, lookup_insert_eq. by split_and!.
Qed.

(** C9, as stated, fails: on a session whose client failed to start,
    a [stop] that rejects makes [dispose] reject, twice in a row, and
    the handle is still there. *)
Lemma dispose_rejects_with_stop :
  let w := exec (reInitialize env_start_fails) empty in
  let w1 := exec (dispose env_stop_rejects) w in
  let w2 := exec (dispose env_stop_rejects) w1 in
  result (dispose env_stop_rejects) w
    = Throw (ShutdownFailed "Client is not running and can't be stopped.") /\
  result (dispose env_stop_rejects) w1
    = Throw (ShutdownFailed "Client is not running and can't be stopped.") /\
  client w2 = Some 0 /\
  (disposed <$> heap w2 !! 0) = Some false /\
  calls w2 = (calls w ++ [ClientStop 0 2000; ClientStop 0 2000])%list.
Proof. cbv zeta. split_and!; vm_compute; reflexivity. Qed.

(** C9, amended. [dispose] on a session with [client] undefined does
    not throw and touches no client.  When a client is assigned and
    [stop] resolves, [dispose] does not throw and leaves [client]
    undefined with no live client, and a second [dispose], whatever
    [stop] would answer then, does not throw and changes nothing about
    the handle or the clients (it only disposes the resource stores
    again).  When [stop] rejects, [dispose] rejects with what it threw:
    the client stays assigned as it was and the resource stores are not
    disposed. *)
Theorem dispose_idempotent (env1 env2 : Env) (w : World) :
  handle_inv w ->
  let w1 := exec (dispose env1) w in
  let w2 := exec (dispose env2) w1 in
  (client w = None ->
     result (dispose env1) w = Normal tt /\ client w1 = None /\
     heap w1 = heap w /\ calls w1 = (calls w ++ [ResourceStoresDispose])%list) /\
  (client w = None \/ stop env1 = Normal tt ->
     result (dispose env1) w = Normal tt /\ result (dispose env2) w1 = Normal tt /\
     client w1 = None /\ live_handles w1 = ∅ /\
     calls w1 = (calls w ++ release_calls (client w) ++ [ResourceStoresDispose])%list /\
     client w2 = client w1 /\ heap w2 = heap w1 /\ live_handles w2 = ∅ /\
     log w2 = log w1 /\ calls w2 = (calls w1 ++ [ResourceStoresDispose])%list) /\
  (forall e h, client w = Some h -> stop env1 = Throw e ->
     result (dispose env1) w = Throw e /\
     client w1 = Some h /\ h ∈ live_handles w1 /\ heap w1 = heap w /\ log w1 = log w /\
     calls w1 = (calls w ++ [ClientStop h 2000])%list).
Proof.
  intros Hw w1 w2.
  assert (Hdone : client w = None \/ stop env1 = Normal tt ->
     result (dispose env1) w = Normal tt /\ result (dispose env2) w1 = Normal tt /\
     client w1 = None /\ live_handles w1 = ∅ /\
     calls w1 = (calls w ++ release_calls (client w) ++ [ResourceStoresDispose])%list /\
     client w2 = client w1 /\ heap w2 = heap w1 /\ live_handles w2 = ∅ /\
     log w2 = log w1 /\ calls w2 = (calls w1 ++ [ResourceStoresDispose])%list).
  { intros Hok%release_client_completes. subst w2 w1. unfold exec, result.
    rewrite (dispose_released env1 w Hok). cbn [fst snd].
    pose proof (released_client env1 w Hok) as Hc.
    assert (Hok2 : result (release_client env2)
                     (add_call ResourceStoresDispose (released env1 w)) = Normal tt)
      by (apply release_client_completes; by left).
    rewrite (dispose_released env2 _ Hok2). cbn [fst snd].
    rewrite (released_unassigned env2 (add_call ResourceStoresDispose (released env1 w)))
      by done.
    cbn. rewrite Hc, released_calls, <- app_assoc by done.
    assert (Hlive : live_handles (add_call ResourceStoresDispose (released env1 w)) = ∅).
    { rewrite <- (live_handles_released env1 w Hok Hw). by apply live_handles_ext. }
    by split_and!. }
  split_and!; [|exact Hdone|].
  - intros H0. destruct (Hdone (or_introl H0)) as (Hr & _ & Hc & _ & Hcs & _).
    rewrite H0 in Hcs. split_and!; try done.
    subst w1. unfold exec. rewrite dispose_released by (apply release_client_completes; by left).
    cbn. by rewrite released_unassigned.
  - intros e h Hc Hs.
    assert (Hrel : result (release_client env1) w = Throw e).
    { unfold_lsp. unfold_eff. by rewrite Hc, Hs. }
    destruct (dispose_rejected env1 w e Hrel) as (h' & Hc' & _ & Hr).
    rewrite Hc in Hc'. injection Hc' as <-.
    subst w1. unfold exec, result. rewrite Hr. cbn. split_and!; try done.
    by apply (assigned_live w).
Qed.

(** C10. Scope of the config gate: [workspaceHasConfigFile] answers
    true exactly when discovery limited to one result finds a file, or
    the array of workspace folders has a first element and the ancestor
    directories of that folder contain one.  Discovery is always asked
    first, with [maxResults] 1; the ancestor search is made only when
    discovery found nothing, only for the first element of the array,
    and not at all when the array is undefined or empty, in which case
    the answer is false.  Nothing else is changed. *)
Theorem workspaceHasConfigFile_scope (env : Env) (w : World) :
  let w' := exec (workspaceHasConfigFile env) w in
  let r := result (workspaceHasConfigFile env) w in
  let found := discoverWorkspaceConfigFiles env 1 <> [] in
  (exists b, r = Normal b) /\
  (r = Normal true <->
     found \/
     exists f fs, workspaceFolders env = Some (f :: fs) /\
                  ancestorDirsContainConfigFile env (uri f) = true) /\
  (found -> calls w' = (calls w ++ [DiscoverWorkspaceConfigFiles 1])%list) /\
  (forall f fs, workspaceFolders env = Some (f :: fs) -> ~ found ->
     r = Normal (ancestorDirsContainConfigFile env (uri f)) /\
     calls w' = (calls w ++ [DiscoverWorkspaceConfigFiles 1;
                             AncestorDirsContainConfigFile (uri f)])%list) /\
  (workspaceFolders env = None \/ workspaceFolders env = Some [] ->
     calls w' = (calls w ++ [DiscoverWorkspaceConfigFiles 1])%list /\
     (~ found -> r = Normal false)) /\
  (forall u, AncestorDirsContainConfigFile u ∈ calls w' ->
     AncestorDirsContainConfigFile u ∈ calls w \/
     exists f fs, workspaceFolders env = Some (f :: fs) /\ u = uri f) /\
  client w' = client w /\ heap w' = heap w /\ log w' = log w.
Proof.
  cbv zeta. rewrite workspaceHasConfigFile_result.
  unfold exec. unfold_lsp. unfold_eff.
  destruct (discoverWorkspaceConfigFiles env 1) as [|u0 us] eqn:Hd; cbn.
  - destruct (workspaceFolders env) as [[|f fs]|] eqn:Hwf; cbn.
    + split_and!; eauto; try done.
      * split; [done|]. intros [?|(f & fs & ? & _)]; done.
      * intros u Hin. apply elem_of_app in Hin as [?|Hin]; [by left|].
        apply list_elem_of_singleton in Hin. done.
    + split_and!; eauto; try done.
      * split; [intros [= Ha]; right; by exists f, fs|].
        by intros [?|(f' & fs' & [= <- <-] & ->)].
      * intros f' fs' [= <- <-] _. by rewrite <- app_assoc.
      * by intros [?|?].
      * intros u Hin. rewrite <- app_assoc in Hin.
        apply elem_of_app in Hin as [?|Hin]; [by left|]. right. exists f, fs.
        split; [done|]. apply elem_of_cons in Hin as [?|Hin]; [done|].
        apply list_elem_of_singleton in Hin. congruence.
    + split_and!; eauto; try done.
      * split; [done|]. intros [?|(f & fs & ? & _)]; done.
      * intros u Hin. apply elem_of_app in Hin as [?|Hin]; [by left|].
        apply list_elem_of_singleton in Hin. done.
  - assert (Hu : forall u, AncestorDirsContainConfigFile u
                           ∈ (calls w ++ [DiscoverWorkspaceConfigFiles 1])%list ->
                           AncestorDirsContainConfigFile u ∈ calls w).
    { intros u Hin. apply elem_of_app in Hin as [?|Hin]; [done|].
      apply list_elem_of_singleton in Hin. done. }
    split_and!; eauto; try done.
    + split; [by left | done].
    + intros f fs _ Hn. by destruct Hn.
    + intros _. split; [done|]. intros Hn. by destruct Hn.
Qed.

(** *** The scenarios of the specification, evaluated *)

Example scenario_A_config_absent :
  reInitialize env_no_config empty =
  ({| client := None; heap := ∅;
      log := [Info "Configuration file not found."];
      calls := [DiscoverWorkspaceConfigFiles 1; AncestorDirsContainConfigFile "/work"] |},
   Normal tt).
Proof. reflexivity. Qed.

Example scenario_B_restart :
  let w1 := exec (reInitialize env_ok) empty in
  let w2 := exec (reInitialize env_ok) w1 in
  client w1 = Some 0 /\ client w2 = Some 1 /\
  (state <$> heap w1 !! 0) = Some Running /\
  (disposed <$> heap w2 !! 0) = Some true /\
  (state <$> heap w2 !! 1) = Some Running /\
  (args <$> (serverOptions <$> heap w2 !! 1)) = Some ["lsp"; "--verbose"] /\
  calls w2 = (calls w1 ++
    [ClientStop 0 2000; ClientDispose 0; DiscoverWorkspaceConfigFiles 1;
     GetCombinedDprintConfig [ {| uri := "/work"; name := "work" |} ];
     ResolveCmdPath {| ra_pathInfo := None; ra_cwd := Some "/work";
                       ra_configUri := None; ra_verbose := true |};
     NewLanguageClient 1 {| command := "dprint"; args := ["lsp"; "--verbose"];
                            shell := true |};
     ClientStart 1])%list.
Proof. vm_compute. repeat split. Qed.

Example scenario_C_untrusted :
  reInitialize env_untrusted empty =
  ({| client := None; heap := ∅; log := [];
      calls := [DiscoverWorkspaceConfigFiles 1; AncestorDirsContainConfigFile "/work";
                GetCombinedDprintConfig [ {| uri := "/work"; name := "work" |} ];
                ResolveCmdPath {| ra_pathInfo := Some "/opt/custom/dprint";
                                  ra_cwd := Some "/work"; ra_configUri := None;
                                  ra_verbose := false |}] |},
   Throw (ResolutionFailed "path not approved")).
Proof. reflexivity. Qed.

(** An empty array of workspace folders with a discovered config file:
    line 337 reads [.uri] of [undefined]. *)
Example empty_folder_array_throws :
  result (reInitialize LspTrace.env_no_folders) empty
  = Throw (TypeError "Cannot read properties of undefined (reading 'uri')").
Proof. reflexivity. Qed.

(** *** Instances of the theorems above *)

Lemma reInitialize_disposes_first_witness :
  let w := exec (reInitialize env_ok) empty in
  handle_inv w /\
  size (live_handles (exec (reInitialize env_no_config) (exec (reInitialize env_ok) w))) <= 1 /\
  (forall h, h ∈ dom (heap w) -> h ∉ live_handles (exec (reInitialize env_ok) w)).
Proof.
  intros w.
  assert (Hw : handle_inv w) by (apply reInitialize_inv, handle_inv_empty).
  split; [exact Hw|].
  destruct (reInitialize_disposes_first env_ok env_no_config w Hw)
    as (_ & Hdone & _ & _ & H & _).
  split; [exact H|].
  destruct (Hdone eq_refl) as (_ & _ & Hold). exact Hold.
Defined.

Lemma reInitialize_config_absent_witness :
  let w := exec (reInitialize env_ok) empty in
  handle_inv w /\
  result (release_client env_no_config) w = Normal tt /\
  result (workspaceHasConfigFile env_no_config) w = Normal false /\
  client (exec (reInitialize env_no_config) w) = None.
Proof.
  intros w.
  assert (Hw : handle_inv w) by (apply reInitialize_inv, handle_inv_empty).
  split; [exact Hw|]. split; [reflexivity|]. split; [reflexivity|].
  destruct (reInitialize_config_absent env_no_config w Hw eq_refl eq_refl) as (_ & H & _).
  exact H.
Defined.

Lemma reInitialize_handle_running_witness :
  let w := exec (reInitialize env_ok) empty in
  let w' := exec (reInitialize env_start_fails) w in
  handle_inv w /\
  result (release_client env_start_fails) w = Normal tt /\
  result (workspaceHasConfigFile env_start_fails) w = Normal true /\
  workspaceFolders env_start_fails <> Some [] /\
  resolveCmdPath env_start_fails (LspTrace.resolve_args env_start_fails) = Normal "dprint" /\
  start env_start_fails = Throw (ConnectionFailed "spawn dprint ENOENT") /\
  result (reInitialize env_start_fails) w = Throw (ConnectionFailed "spawn dprint ENOENT") /\
  exists h, client w' = Some h /\ live_handles w' = {[h]} /\ running_handles w' = ∅.
Proof.
  intros w w'.
  assert (Hw : handle_inv w) by (apply reInitialize_inv, handle_inv_empty).
  assert (Hf : workspaceFolders env_start_fails <> Some []) by discriminate.
  split; [exact Hw|]. split; [reflexivity|]. split; [reflexivity|].
  split; [exact Hf|]. split; [reflexivity|]. split; [reflexivity|].
  destruct (reInitialize_handle_running env_start_fails w Hw) as (Hdone & _).
  destruct (Hdone eq_refl) as (Hfail & _).
  destruct (Hfail "dprint" (ConnectionFailed "spawn dprint ENOENT") eq_refl Hf eq_refl eq_refl)
    as (Hr & h & Hc & _ & _ & Hl & Hrun).
  split; [exact Hr|]. exists h. split; [exact Hc|]. split; [exact Hl | exact Hrun].
Defined.

Lemma dispose_idempotent_witness :
  let w := exec (reInitialize env_ok) empty in
  handle_inv w /\
  (client w = None \/ stop env_ok = Normal tt) /\
  result (dispose env_stop_rejects) (exec (dispose env_ok) w) = Normal tt /\
  client (exec (dispose env_stop_rejects) (exec (dispose env_ok) w))
    = client (exec (dispose env_ok) w).
Proof.
  intros w.
  assert (Hw : handle_inv w) by (apply reInitialize_inv, handle_inv_empty).
  assert (Hs : client w = None \/ stop env_ok = Normal tt) by (right; reflexivity).
  split; [exact Hw|]. split; [exact Hs|].
  destruct (dispose_idempotent env_ok env_stop_rejects w Hw) as (_ & Hdone & _).
  destruct (Hdone Hs) as (_ & H2 & _ & _ & _ & H & _).
  split; [exact H2 | exact H].
Defined.

End LspFacts.

(** ** Properties of the reinitialization controller *)

Module ExtensionFacts.
Import Extension.

Ltac unfold_ext :=
  unfold step, handle, reInitializeBackend_settled, reInitializeBackend,
    debounceReInitializeBackend, setTimeout, clearTimeout, logInfo, logError, on_backend,
    Lsp.logInfo, Lsp.logError in *.

Ltac simpl_state :=
  unfold timer_inv;
  unfold set_isReInitializing, set_pendingReInit, set_reInitializeTimeout, set_timers,
    set_inflight, set_backend in *;
  cbn [isReInitializing pendingReInit reInitializeTimeout timers nextTimer inflight runs
       backend fst snd] in *.

Lemma ctl_inv_activate : ctl_inv activate.
Proof.
  split; [right; exists 0; split; reflexivity | reflexivity | reflexivity].
Qed.

(** Clearing the remembered timer leaves no timer armed. *)
Lemma cleared s :
  timer_inv s ->
  match reInitializeTimeout s with
  | Some t => delete t (timers s)
  | None => timers s
  end = ∅.
Proof.
  intros [He | (t & He & Hr)]; rewrite He.
  - destruct (reInitializeTimeout s); [apply delete_empty | done].
  - rewrite Hr. apply delete_singleton_eq.
Qed.

Lemma debounceReInitializeBackend_spec s :
  timer_inv s ->
  debounceReInitializeBackend s =
  (if isReInitializing s then
     {| isReInitializing := true; pendingReInit := true;
        reInitializeTimeout := reInitializeTimeout s; timers := ∅;
        nextTimer := nextTimer s; inflight := inflight s; runs := runs s;
        backend := backend s |}
   else
     {| isReInitializing := false; pendingReInit := pendingReInit s;
        reInitializeTimeout := Some (nextTimer s); timers := {[nextTimer s := 250]};
        nextTimer := S (nextTimer s); inflight := inflight s; runs := runs s;
        backend := backend s |},
   Normal tt).
Proof.
  intros Ht. apply cleared in Ht.
  destruct s as [busy pend rt ts nt inf rn w]; cbn in *.
  unfold_ext; unfold_eff.
  destruct rt as [t|], busy; simpl_state; first [rewrite Ht | subst ts];
    rewrite ?insert_empty; done.
Qed.

Lemma reInitializeBackend_spec s :
  reInitializeBackend s =
  (if isReInitializing s then set_pendingReInit true s
   else
     {| isReInitializing := true; pendingReInit := pendingReInit s;
        reInitializeTimeout := reInitializeTimeout s; timers := timers s;
        nextTimer := nextTimer s; inflight := S (inflight s); runs := S (runs s);
        backend := backend s |},
   Normal tt).
Proof.
  destruct s as [busy pend rt ts nt inf rn w]. unfold_ext; unfold_eff.
  by destruct busy; simpl_state.
Qed.

Lemma reInitializeBackend_settled_spec r s :
  timer_inv s ->
  reInitializeBackend_settled r s =
  (if pendingReInit s then
     {| isReInitializing := false; pendingReInit := false;
        reInitializeTimeout := Some (nextTimer s); timers := {[nextTimer s := 250]};
        nextTimer := S (nextTimer s); inflight := inflight s; runs := runs s;
        backend := Lsp.add_log (outcome_entry r) (backend s) |}
   else
     {| isReInitializing := false; pendingReInit := false;
        reInitializeTimeout := reInitializeTimeout s; timers := timers s;
        nextTimer := nextTimer s; inflight := inflight s; runs := runs s;
        backend := Lsp.add_log (outcome_entry r) (backend s) |},
   Normal tt).
Proof.
  intros Ht. apply cleared in Ht.
  destruct s as [busy pend rt ts nt inf rn w]; cbn in *.
  unfold_ext; unfold_eff.
  destruct r as [[]|err], pend, rt as [t|]; simpl_state; try first [rewrite Ht | subst ts];
    rewrite ?insert_empty; done.
Qed.

Lemma handle_Fire_spec t s :
  timer_inv s ->
  handle (Fire t) s =
  match timers s !! t with
  | Some _ =>
      reInitializeBackend
        {| isReInitializing := isReInitializing s; pendingReInit := pendingReInit s;
           reInitializeTimeout := reInitializeTimeout s; timers := ∅;
           nextTimer := nextTimer s; inflight := inflight s; runs := runs s;
           backend := backend s |}
  | None => (s, Normal tt)
  end.
Proof.
  intros Ht. destruct s as [busy pend rt ts nt inf rn w]. unfold timer_inv in Ht.
  cbn [handle]. unfold_eff. simpl_state.
  destruct (ts !! t) as [d|] eqn:Hl; [|done].
  destruct Ht as [-> | (t0 & -> & _)]; [by rewrite lookup_empty in Hl|].
  apply lookup_singleton_Some in Hl as [-> _]. simpl_state. rewrite delete_singleton_eq.
  by destruct (reInitializeBackend _).
Qed.

Lemma handle_Settle_spec env s :
  handle (Settle env) s =
  match inflight s with
  | O => (s, Normal tt)
  | S n =>
      reInitializeBackend_settled (result (Lsp.reInitialize env) (backend s))
        {| isReInitializing := isReInitializing s; pendingReInit := pendingReInit s;
           reInitializeTimeout := reInitializeTimeout s; timers := timers s;
           nextTimer := nextTimer s; inflight := n; runs := runs s;
           backend := exec (Lsp.reInitialize env) (backend s) |}
  end.
Proof.
  destruct s as [busy pend rt ts nt inf rn w].
  cbn [handle]. unfold on_backend. unfold_eff. simpl_state.
  destruct inf as [|n]; [done|]. simpl_state.
  destruct (Lsp.reInitialize env w) as [w' r]. by simpl_state.
Qed.

Lemma ctl_inv_step e s : ctl_inv s -> ctl_inv (step e s).
Proof.
  intros Hs. pose proof Hs as [Ht Hf Hp]. unfold step, exec.
  assert (Hstart : ctl_inv s -> forall ts, ts = ∅ ->
            ctl_inv (reInitializeBackend
               {| isReInitializing := isReInitializing s; pendingReInit := pendingReInit s;
                  reInitializeTimeout := reInitializeTimeout s; timers := ts;
                  nextTimer := nextTimer s; inflight := inflight s; runs := runs s;
                  backend := backend s |}).1).
  { intros _ ts ->. rewrite reInitializeBackend_spec. simpl_state.
    destruct (isReInitializing s) eqn:Hb; split; simpl_state; rewrite ?Hb; eauto;
      try done; by rewrite Hf. }
  destruct e as [| |t|env].
  - cbn [handle]. rewrite debounceReInitializeBackend_spec by done.
    destruct (isReInitializing s) eqn:Hb; split; simpl_state; eauto.
  - cbn [handle]. rewrite reInitializeBackend_spec.
    destruct (isReInitializing s) eqn:Hb; split; simpl_state; rewrite ?Hb; eauto;
      try done; by rewrite Hf.
  - rewrite handle_Fire_spec by done.
    destruct (timers s !! t); [|exact Hs]. by apply Hstart.
  - rewrite handle_Settle_spec.
    destruct (inflight s) as [|n] eqn:Hn; [exact Hs|].
    rewrite reInitializeBackend_settled_spec by done. simpl_state.
    destruct (isReInitializing s) eqn:Hb; [|done].
    injection Hf as ->.
    destruct (pendingReInit s); split; simpl_state; eauto.
Qed.

Lemma ctl_inv_run es s : ctl_inv s -> ctl_inv (run es s).
Proof.
  revert s. induction es as [|e es IH]; intros s Hs; [done|].
  cbn. apply IH. by apply ctl_inv_step.
Qed.

Lemma reInitializeBackend_settled_always r s :
  let s' := exec (reInitializeBackend_settled r) s in
  result (reInitializeBackend_settled r) s = Normal tt /\
  isReInitializing s' = false /\ pendingReInit s' = false /\
  backend s' = Lsp.add_log (outcome_entry r) (backend s) /\
  inflight s' = inflight s /\ runs s' = runs s /\
  nextTimer s' = (if pendingReInit s then S (nextTimer s) else nextTimer s).
Proof.
  destruct s as [busy pend rt ts nt inf rn w].
  unfold_ext; unfold_eff.
  destruct r as [[]|err], pend, rt as [t|]; simpl_state; done.
Qed.

Lemma handle_normal e s : result (handle e) s = Normal tt.
Proof.
  destruct e as [| |t|env].
  - destruct s as [busy pend rt ts nt inf rn w]. cbn [handle].
    unfold_ext; unfold_eff. by destruct rt as [t|], busy.
  - unfold result. cbn [handle]. by rewrite reInitializeBackend_spec.
  - destruct s as [busy pend rt ts nt inf rn w]. cbn [handle].
    unfold_ext; unfold_eff. simpl_state.
    destruct (ts !! t); [|done]. by destruct busy.
  - unfold result. rewrite handle_Settle_spec.
    destruct (inflight s); [done|]. apply reInitializeBackend_settled_always.
Qed.

(** C4. No handler throws, whatever the event and the state; and once
    the awaited [backend.reInitialize()] has settled, normally or with
    an error, the rest of [reInitializeBackend] completes normally:
    an error is caught and logged, and the [finally] block has reset
    [isReInitializing] and cleared [pendingReInit], arming the
    debounce timer once if it was set. *)
Theorem trigger_never_throws (e : Event) (r : Completion unit) (s : State) :
  let s' := exec (reInitializeBackend_settled r) s in
  result (handle e) s = Normal tt /\
  result (reInitializeBackend_settled r) s = Normal tt /\
  isReInitializing s' = false /\
  pendingReInit s' = false /\
  Lsp.log (backend s') =
    (Lsp.log (backend s) ++
     [match r with
      | Normal _ => Info "Extension active!"
      | Throw err => Error "Error initializing:" err
      end])%list /\
  nextTimer s' = (if pendingReInit s then S (nextTimer s) else nextTimer s).
Proof.
  destruct (reInitializeBackend_settled_always r s) as (Hr & Hb & Hp & Hw & _ & _ & Hn).
  cbv zeta. rewrite Hw. split_and!; try done. apply handle_normal.
Qed.

Lemma inflight_flag es :
  let s := run es activate in
  inflight s = if isReInitializing s then 1 else 0.
Proof. apply ctl_inv_run, ctl_inv_activate. Qed.

(** C2. No overlap: after any sequence of events at most one
    [backend.reInitialize()] is in flight, and [isReInitializing] is
    true exactly while one is.  While it is true, no trigger, direct
    call or timer starts a second run and the flag stays set; only the
    settling of the run in flight resets it. *)
Theorem no_overlap (es : list Event) :
  let s := run es activate in
  inflight s <= 1 /\
  (isReInitializing s = true <-> inflight s = 1) /\
  (isReInitializing s = true ->
     (forall e, is_settle e = false ->
        runs (step e s) = runs s /\ inflight (step e s) = 1 /\
        isReInitializing (step e s) = true) /\
     (forall env,
        inflight (step (Settle env) s) = 0 /\
        isReInitializing (step (Settle env) s) = false)).
Proof.
  intros s. pose proof (ctl_inv_run es activate ctl_inv_activate) as Hs.
  fold s in Hs. pose proof Hs as [Ht Hf Hp].
  split_and!.
  - rewrite Hf. destruct (isReInitializing s); lia.
  - rewrite Hf. by destruct (isReInitializing s).
  - intros Hb. rewrite Hb in Hf. split.
    + intros e He. unfold step, exec. destruct e as [| |t|env]; [| | |done].
      * cbn [handle]. rewrite debounceReInitializeBackend_spec, Hb by done. by simpl_state.
      * cbn [handle]. rewrite reInitializeBackend_spec, Hb. by simpl_state.
      * rewrite handle_Fire_spec by done. destruct (timers s !! t); [|done].
        rewrite reInitializeBackend_spec. simpl_state. rewrite Hb. by simpl_state.
    + intros env. unfold step, exec. rewrite handle_Settle_spec, Hf.
      destruct (reInitializeBackend_settled_always
                  (result (Lsp.reInitialize env) (backend s))
                  {| isReInitializing := isReInitializing s;
                     pendingReInit := pendingReInit s;
                     reInitializeTimeout := reInitializeTimeout s; timers := timers s;
                     nextTimer := nextTimer s; inflight := 0; runs := runs s;
                     backend := exec (Lsp.reInitialize env) (backend s) |})
        as (_ & Hb' & _ & _ & Hi & _).
      unfold exec, result in *. by rewrite Hb', Hi.
Qed.

(** Triggers during a run only set [pendingReInit]. *)
Lemma run_triggers_busy mids s :
  ctl_inv s -> isReInitializing s = true -> forallb is_trigger mids = true ->
  let s1 := run mids s in
  ctl_inv s1 /\ isReInitializing s1 = true /\
  pendingReInit s1 = (if mids is [] then pendingReInit s else true) /\
  runs s1 = runs s /\ inflight s1 = inflight s /\ nextTimer s1 = nextTimer s /\
  backend s1 = backend s.
Proof.
  revert s. induction mids as [|e mids IH]; intros s Hs Hb Hm; [done|].
  cbn in Hm. apply andb_prop in Hm as [He Hm]. cbn [run fold_left].
  assert (Hstep : isReInitializing (step e s) = true /\ pendingReInit (step e s) = true /\
                  runs (step e s) = runs s /\ inflight (step e s) = inflight s /\
                  nextTimer (step e s) = nextTimer s /\ backend (step e s) = backend s).
  { pose proof Hs as [Ht _ _]. unfold step, exec.
    destruct e; try done; cbn [handle].
    - rewrite debounceReInitializeBackend_spec, Hb by done. by simpl_state.
    - rewrite reInitializeBackend_spec, Hb. by simpl_state. }
  destruct Hstep as (Hb1 & Hp1 & Hr1 & Hi1 & Hn1 & Hw1).
  destruct (IH (step e s)) as (Hs2 & Hb2 & Hp2 & Hr2 & Hi2 & Hn2 & Hw2);
    [by apply ctl_inv_step | done | done |].
  unfold run in *. split_and!; try done; try congruence.
  rewrite Hp2. by destruct mids.
Qed.

(** A run started by the timer [t], the only one armed, and settling
    with no trigger in between. *)
Lemma fire_then_settle s t env :
  ctl_inv s -> isReInitializing s = false -> timers s = {[t := 250]} ->
  let s1 := step (Fire t) s in
  let s2 := step (Settle env) s1 in
  runs s1 = S (runs s) /\ inflight s1 = 1 /\ isReInitializing s1 = true /\
  timers s1 = ∅ /\
  runs s2 = S (runs s) /\ quiescent s2.
Proof.
  intros Hs Hb Ht s1 s2.
  assert (Hs1 : ctl_inv s1) by by apply ctl_inv_step.
  pose proof Hs as [Hti Hf Hp]. rewrite Hb in Hf. specialize (Hp Hb).
  assert (E1 : s1 = {| isReInitializing := true; pendingReInit := false;
                       reInitializeTimeout := reInitializeTimeout s; timers := ∅;
                       nextTimer := nextTimer s; inflight := 1; runs := S (runs s);
                       backend := backend s |}).
  { unfold s1, step, exec. rewrite handle_Fire_spec, Ht, lookup_singleton_eq by done.
    rewrite reInitializeBackend_spec. simpl_state. rewrite Hb, Hf, Hp. done. }
  assert (E2 : s2 = {| isReInitializing := false; pendingReInit := false;
                       reInitializeTimeout := reInitializeTimeout s; timers := ∅;
                       nextTimer := nextTimer s; inflight := 0; runs := S (runs s);
                       backend := backend s2 |}).
  { unfold s2, step, exec. rewrite handle_Settle_spec.
    destruct Hs1 as [Hti1 _ _]. rewrite E1 in *. simpl_state.
    rewrite reInitializeBackend_settled_spec by (by left). by simpl_state. }
  rewrite E2, E1. by simpl_state.
Qed.

(** C1. Mid-run coalescing: however many triggers (at least one; calls
    of [debounceReInitializeBackend] or of [reInitializeBackend])
    arrive while a run is in flight, none starts a run or arms a
    timer; when the run settles the pending flag is cleared and the
    debounce timer is armed exactly once; that timer starts exactly one
    more run, after which nothing is left scheduled. *)
Theorem mid_run_coalescing (history mids : list Event) (env env' : Lsp.Env) :
  let s := run history activate in
  isReInitializing s = true ->
  1 <= length mids ->
  forallb is_trigger mids = true ->
  let s1 := run mids s in
  let s2 := step (Settle env) s1 in
  let t := nextTimer s in
  let s3 := step (Fire t) s2 in
  let s4 := step (Settle env') s3 in
  (pendingReInit s1 = true /\ runs s1 = runs s /\ inflight s1 = 1 /\
   nextTimer s1 = nextTimer s) /\
  (isReInitializing s2 = false /\ pendingReInit s2 = false /\
   timers s2 = {[t := 250]} /\ nextTimer s2 = S (nextTimer s) /\
   runs s2 = runs s /\ inflight s2 = 0) /\
  (runs s3 = S (runs s) /\ inflight s3 = 1 /\ timers s3 = ∅) /\
  (runs s4 = S (runs s) /\ quiescent s4).
Proof.
  intros s Hb Hlen Hm s1 s2 t s3 s4.
  assert (Hs : ctl_inv s) by apply ctl_inv_run, ctl_inv_activate.
  destruct (run_triggers_busy mids s Hs Hb Hm) as (Hs1 & Hb1 & Hp1 & Hr1 & Hi1 & Hn1 & Hw1).
  fold s1 in Hs1, Hb1, Hp1, Hr1, Hi1, Hn1, Hw1.
  assert (Hp1' : pendingReInit s1 = true) by (destruct mids; [cbn in Hlen; lia | done]).
  pose proof Hs1 as [Ht1 Hf1 _]. rewrite Hb1 in Hf1.
  assert (Hs2 : ctl_inv s2) by by apply ctl_inv_step.
  assert (E2 : isReInitializing s2 = false /\ pendingReInit s2 = false /\
               timers s2 = {[t := 250]} /\ nextTimer s2 = S (nextTimer s) /\
               runs s2 = runs s /\ inflight s2 = 0).
  { unfold s2, step, exec. rewrite handle_Settle_spec, Hf1.
    rewrite reInitializeBackend_settled_spec by done. simpl_state.
    rewrite Hp1'. simpl_state. by rewrite Hn1, Hr1. }
  destruct E2 as (Hb2 & Hp2 & Ht2 & Hn2 & Hr2 & Hi2).
  destruct (fire_then_settle s2 t env' Hs2 Hb2 Ht2) as (Hr3 & Hi3 & _ & Ht3 & Hr4 & Hq).
  fold s3 in Hr3, Hi3, Ht3, Hr4, Hq. fold s4 in Hr4, Hq.
  rewrite Hr2 in Hr3, Hr4. by split_and!.
Qed.

(** A burst of triggers while idle: each cancels the timer of the one
    before, so only the last timer stays armed. *)
Lemma run_triggers_idle n s :
  timer_inv s -> isReInitializing s = false ->
  run (repeat Trigger (S n)) s =
  {| isReInitializing := false; pendingReInit := pendingReInit s;
     reInitializeTimeout := Some (nextTimer s + n);
     timers := {[nextTimer s + n := 250]};
     nextTimer := S (nextTimer s + n); inflight := inflight s; runs := runs s;
     backend := backend s |}.
Proof.
  revert s. induction n as [|n IH]; intros s Ht Hb.
  - cbn [repeat run fold_left]. unfold step, exec. cbn [handle].
    rewrite debounceReInitializeBackend_spec, Hb, Nat.add_0_r by done. done.
  - change (run (repeat Trigger (S (S n))) s)
      with (run (repeat Trigger (S n)) (step Trigger s)).
    assert (E : step Trigger s =
                {| isReInitializing := false; pendingReInit := pendingReInit s;
                   reInitializeTimeout := Some (nextTimer s);
                   timers := {[nextTimer s := 250]};
                   nextTimer := S (nextTimer s); inflight := inflight s; runs := runs s;
                   backend := backend s |}).
    { unfold step, exec. cbn [handle].
      by rewrite debounceReInitializeBackend_spec, Hb by done. }
    rewrite E, IH; simpl_state; [|right; by eexists|done].
    by replace (S (nextTimer s) + n) with (nextTimer s + S n) by lia.
Qed.

Lemma at_most_one_timer s : ctl_inv s -> size (timers s) <= 1.
Proof.
  intros [[-> | (t & -> & _)] _ _].
  - rewrite map_size_empty. lia.
  - by rewrite map_size_singleton.
Qed.

(** C3. Debounce coalescing: a burst of [n >= 1] triggers arriving
    while no run is in flight and before any timer fires starts no run
    and leaves exactly one timer armed, the last one; the timers
    cancelled on the way can no longer fire; the armed one starts
    exactly one run, after which nothing is left scheduled.  And in
    every reachable state at most one timer is armed. *)
Theorem debounce_coalescing (history : list Event) (n : nat) (env : Lsp.Env) :
  let s := run history activate in
  isReInitializing s = false ->
  1 <= n ->
  let s1 := run (repeat Trigger n) s in
  let t := nextTimer s + n - 1 in
  let s2 := step (Fire t) s1 in
  let s3 := step (Settle env) s2 in
  (runs s1 = runs s /\ inflight s1 = 0 /\ timers s1 = {[t := 250]} /\
   reInitializeTimeout s1 = Some t /\ nextTimer s1 = nextTimer s + n) /\
  (forall t', t' <> t -> step (Fire t') s1 = s1) /\
  (runs s2 = S (runs s) /\ inflight s2 = 1 /\ timers s2 = ∅) /\
  (runs s3 = S (runs s) /\ quiescent s3) /\
  (forall es, size (timers (run es activate)) <= 1).
Proof.
  intros s Hb Hn s1 t s2 s3.
  assert (Hs : ctl_inv s) by apply ctl_inv_run, ctl_inv_activate.
  assert (Hs1 : ctl_inv s1) by by apply ctl_inv_run.
  pose proof Hs as [Ht Hf Hp]. rewrite Hb in Hf.
  destruct n as [|n]; [lia|].
  assert (E1 : s1 = {| isReInitializing := false; pendingReInit := pendingReInit s;
                       reInitializeTimeout := Some t; timers := {[t := 250]};
                       nextTimer := S t; inflight := 0; runs := runs s;
                       backend := backend s |}).
  { unfold s1. rewrite run_triggers_idle, Hf by done.
    by replace (nextTimer s + n) with t by (unfold t; lia). }
  assert (Hb1 : isReInitializing s1 = false) by by rewrite E1.
  assert (Ht1 : timers s1 = {[t := 250]}) by by rewrite E1.
  destruct (fire_then_settle s1 t env Hs1 Hb1 Ht1) as (Hr2 & Hi2 & _ & Ht2 & Hr3 & Hq).
  fold s2 in Hr2, Hi2, Ht2, Hr3, Hq. fold s3 in Hr3, Hq.
  assert (Hr1 : runs s1 = runs s) by by rewrite E1.
  rewrite Hr1 in Hr2, Hr3.
  split_and!; try done.
  - by rewrite E1.
  - by rewrite E1.
  - rewrite E1. simpl_state. unfold t. lia.
  - intros t' Hne. unfold step, exec. destruct Hs1 as [Hti _ _].
    rewrite handle_Fire_spec, Ht1, lookup_singleton_ne by done. done.
  - intros es. apply at_most_one_timer, ctl_inv_run, ctl_inv_activate.
Qed.

(** C7. Resolution-failure path: when, the previous client being
    released, a configuration file is found and
    [DprintExecutable.resolveCmdPath] rejects with [e], then
    [reInitialize] rejects, having constructed no client and leaving
    [client] undefined with no live client; the controller, on the
    settling of that run, catches what was thrown, logs it as an error,
    returns normally and resets its flag.  What is thrown is [e], unless
    the array of workspace folders is empty: the resolver is then not
    reached, because line 337 has thrown already. *)
Theorem resolution_failure_propagates (env : Lsp.Env) (s : State) (e : Thrown) :
  Lsp.handle_inv (backend s) ->
  inflight s = 1 ->
  result (Lsp.release_client env) (backend s) = Normal tt ->
  result (Lsp.workspaceHasConfigFile env) (backend s) = Normal true ->
  Lsp.resolveCmdPath env (LspTrace.resolve_args env) = Throw e ->
  let w' := exec (Lsp.reInitialize env) (backend s) in
  let s' := step (Settle env) s in
  exists e',
    (Lsp.workspaceFolders env <> Some [] -> e' = e) /\
    (result (Lsp.reInitialize env) (backend s) = Throw e' /\
     Lsp.client w' = None /\
     Lsp.live_handles w' = ∅ /\
     Lsp.running_handles w' = ∅ /\
     Lsp.log w' = Lsp.log (backend s) /\
     exists cs,
       Lsp.calls w' =
         (Lsp.calls (backend s) ++ Lsp.release_calls (Lsp.client (backend s)) ++ cs)%list /\
       forallb (fun c => negb (Lsp.is_construct c)) cs = true) /\
    (result (handle (Settle env)) s = Normal tt /\
     isReInitializing s' = false /\
     backend s' = Lsp.add_log (Error "Error initializing:" e') w').
Proof.
  intros Hw Hi Hok Hfound Hres w' s'.
  rewrite LspFacts.workspaceHasConfigFile_result in Hfound.
  destruct (LspFacts.reInitialize_ending env (backend s) Hok) as (cs & Hcs & _ & He).
  destruct (LspFacts.reInitialize_path env (backend s) Hok) as (cs' & _ & Hp).
  fold w' in Hcs, He, Hp.
  assert (Hr : exists e',
               (Lsp.workspaceFolders env <> Some [] -> e' = e) /\
               result (Lsp.reInitialize env) (backend s) = Throw e' /\
               Lsp.client w' = Lsp.client (Lsp.released env (backend s)) /\
               Lsp.heap w' = Lsp.heap (Lsp.released env (backend s)) /\
               Lsp.log w' = Lsp.log (Lsp.released env (backend s))).
  { destruct Hp as [Hf | Hwf _ Hr Hc Hh Hl _ | e' _ _ He' Hr Hc Hh Hl _
                   | cmd st _ _ Hcmd].
    - rewrite LspFacts.workspaceHasConfigFile_result in Hf. congruence.
    - exists (TypeError "Cannot read properties of undefined (reading 'uri')").
      by split_and!.
    - rewrite Hres in He'. injection He' as <-. by exists e.
    - by rewrite Hres in Hcmd. }
  assert (Hn : forallb (fun c => negb (Lsp.is_construct c)) cs = true).
  { destruct Hr as (e' & _ & Hr & _).
    destruct He as [_ Hr' | e'' _ _ _ _ _ Hn | a cmd c _ _ _ Hc Hh].
    - congruence.
    - done.
    - destruct Hp as [_ _ Hc' | _ _ _ Hc' | e3 _ _ _ _ Hc' | cmd' st _ _ Hcmd];
        [rewrite Hc in Hc'; rewrite LspFacts.released_client in Hc' by done; done ..|].
      by rewrite Hres in Hcmd. }
  destruct Hr as (e' & He' & Hr & Hc & Hh & Hl).
  rewrite LspFacts.released_client in Hc by done.
  rewrite LspFacts.released_log in Hl by done.
  exists e'. split; [exact He'|]. split.
  - split_and!; try done.
    + rewrite (LspFacts.live_handles_ext _ _ Hh). by apply LspFacts.live_handles_released.
    + rewrite (LspFacts.running_handles_ext _ _ Hh).
      by apply LspFacts.running_handles_released.
    + exists cs. split; [|done].
      by rewrite Hcs, LspFacts.released_calls, <- app_assoc.
  - split; [apply handle_normal|].
    unfold s', step, exec. rewrite handle_Settle_spec, Hi, Hr.
    by destruct (reInitializeBackend_settled_always (Throw e')
                {| isReInitializing := isReInitializing s;
                   pendingReInit := pendingReInit s;
                   reInitializeTimeout := reInitializeTimeout s; timers := timers s;
                   nextTimer := nextTimer s; inflight := 0; runs := runs s;
                   backend := w' |})
      as (_ & Hb' & _ & Hw' & _).
Qed.


(** *** The scenarios of the specification, evaluated *)

(** Scenario D: five triggers within the debounce window (the one made
    by [activate] and four more) give one run; a sixth after the run
    has completed gives one more. *)
Example scenario_D_burst :
  let s5 := run [Trigger; Trigger; Trigger; Trigger] activate in
  let done1 := run [Fire 4; Settle Lsp.env_ok] s5 in
  let done2 := run [Trigger; Fire 5; Settle Lsp.env_ok] done1 in
  dom (timers s5) = {[4]} /\ runs s5 = 0 /\
  runs done1 = 1 /\ quiescent done1 /\
  runs done2 = 2 /\ quiescent done2 /\
  Lsp.log (backend done2) =
    [Info "Started experimental language server."; Info "Extension active!";
     Info "Started experimental language server."; Info "Extension active!"].
Proof. vm_compute. repeat split. Qed.

(** Ten signals during a run: one follow-up run. *)
Example ten_signals_one_follow_up :
  let busy := run [Fire 0] activate in
  let s := run (repeat Trigger 10 ++ [Settle Lsp.env_ok]) busy in
  runs busy = 1 /\ isReInitializing busy = true /\
  runs s = 1 /\ dom (timers s) = {[1]} /\ nextTimer s = 2 /\
  runs (run [Fire 1; Settle Lsp.env_ok] s) = 2 /\
  quiescent (run [Fire 1; Settle Lsp.env_ok] s).
Proof. vm_compute. repeat split. Qed.

(** *** Instances of the theorems above *)

Lemma mid_run_coalescing_witness :
  isReInitializing (run [Fire 0] activate) = true /\
  1 <= length [Trigger; Direct; Trigger] /\
  forallb is_trigger [Trigger; Direct; Trigger] = true /\
  runs (step (Settle Lsp.env_ok)
          (step (Fire (nextTimer (run [Fire 0] activate)))
             (step (Settle Lsp.env_start_fails)
                (run [Trigger; Direct; Trigger] (run [Fire 0] activate)))))
  = S (runs (run [Fire 0] activate)).
Proof.
  assert (Hlen : 1 <= length [Trigger; Direct; Trigger]) by (simpl; lia).
  split; [reflexivity|]. split; [exact Hlen|]. split; [reflexivity|].
  destruct (mid_run_coalescing [Fire 0] [Trigger; Direct; Trigger]
              Lsp.env_start_fails Lsp.env_ok eq_refl Hlen eq_refl)
    as (_ & _ & _ & H & _).
  exact H.
Defined.

Lemma debounce_coalescing_witness :
  isReInitializing (run [] activate) = false /\ 1 <= 5 /\
  runs (step (Fire (nextTimer (run [] activate) + 5 - 1))
          (run (repeat Trigger 5) (run [] activate)))
  = S (runs (run [] activate)).
Proof.
  assert (Hn : 1 <= 5) by lia.
  split; [reflexivity|]. split; [exact Hn|].
  destruct (debounce_coalescing [] 5 Lsp.env_ok eq_refl Hn) as (_ & _ & (H & _) & _).
  exact H.
Defined.

Lemma resolution_failure_propagates_witness :
  let s := run [Fire 0] activate in
  Lsp.handle_inv (backend s) /\ inflight s = 1 /\
  result (Lsp.release_client Lsp.env_untrusted) (backend s) = Normal tt /\
  result (Lsp.workspaceHasConfigFile Lsp.env_untrusted) (backend s) = Normal true /\
  Lsp.resolveCmdPath Lsp.env_untrusted (LspTrace.resolve_args Lsp.env_untrusted)
    = Throw (ResolutionFailed "path not approved") /\
  exists e',
    result (Lsp.reInitialize Lsp.env_untrusted) (backend s) = Throw e' /\
    backend (step (Settle Lsp.env_untrusted) s) =
      Lsp.add_log (Error "Error initializing:" e')
        (exec (Lsp.reInitialize Lsp.env_untrusted) (backend s)).
Proof.
  intros s.
  assert (Hw : Lsp.handle_inv (backend s)) by exact LspFacts.handle_inv_empty.
  split; [exact Hw|]. split; [reflexivity|]. split; [reflexivity|].
  split; [reflexivity|]. split; [reflexivity|].
  destruct (resolution_failure_propagates Lsp.env_untrusted s
              (ResolutionFailed "path not approved") Hw eq_refl eq_refl eq_refl eq_refl)
    as (e' & _ & (Hr & _) & (_ & _ & H)).
  exists e'. split; [exact Hr | exact H].
Defined.

End ExtensionFacts.

(** ** More on the backend session *)

Module LspMore.
Import Lsp LspTrace.

Lemma ancestor_query_cases env :
  ancestor_query env = [] \/
  exists f, first_folder env = Some f /\
            discoverWorkspaceConfigFiles env 1 = [] /\
            ancestor_query env = [AncestorDirsContainConfigFile (uri f)].
Proof.
  unfold ancestor_query.
  destruct (discoverWorkspaceConfigFiles env 1) as [|u us]; cbn; [|by left].
  destruct (first_folder env) as [f|]; [right; by exists f | by left].
Qed.

(** X1. The success path: when, the previous client being released, a
    configuration file is found, the folder array is not empty, the
    resolver answers [cmd] and the client starts, [reInitialize]
    returns normally with [client] assigned to a client that did not
    exist before, running, built for command [cmd] run through the
    shell with the arguments "lsp" and, exactly when the combined
    configuration is verbose, "--verbose"; it is the only live and the
    only running client, and the log grows by the one line
    "Started experimental language server.". *)
Theorem reInitialize_starts_client (env : Env) (w : World) (cmd : string) :
  handle_inv w ->
  result (release_client env) w = Normal tt ->
  result (workspaceHasConfigFile env) w = Normal true ->
  workspaceFolders env <> Some [] ->
  resolveCmdPath env (resolve_args env) = Normal cmd ->
  start env = Normal tt ->
  let w' := exec (reInitialize env) w in
  exists h,
    result (reInitialize env) w = Normal tt /\
    client w' = Some h /\ (h ∉ dom (heap w)) /\
    heap w' !! h =
      Some {| id := "dprint";
              serverOptions :=
                {| command := cmd;
                   args := "lsp" :: (if verbose (combined env) then ["--verbose"] else []);
                   shell := true |};
              documentScheme := "file"; state := Running; disposed := false |} /\
    live_handles w' = {[h]} /\ running_handles w' = {[h]} /\
    log w' = (log w ++ [Info "Started experimental language server."])%list /\
    calls w' = (calls w ++ release_calls (client w) ++ full_sequence env h cmd)%list.
Proof.
  intros Hw Hok Hfound Hroot Hres Hstart w'.
  rewrite LspFacts.workspaceHasConfigFile_result in Hfound.
  assert (Hw' : handle_inv w') by by apply LspFacts.reInitialize_inv.
  destruct (LspFacts.reInitialize_path env w Hok) as (cs & Hcs & Hp). fold w' in Hcs, Hp.
  destruct Hp as [Hf | Hwf | e _ _ Hr | cmd' st _ _ Hr Hc Hh -> Hst].
  - rewrite LspFacts.workspaceHasConfigFile_result in Hf. congruence.
  - done.
  - congruence.
  - rewrite Hres in Hr. injection Hr as <-.
    destruct Hst as [(_ & -> & Hr & Hl) | (e & He & _)]; [|congruence].
    exists (fresh (dom (heap (released env w)))).
    rewrite LspFacts.released_log in Hl by done.
    split_and!; try done.
    + rewrite LspFacts.released_dom by done. apply is_fresh.
    + by rewrite Hh, lookup_insert_eq.
    + by rewrite (LspFacts.live_handles_owned w' Hw'), Hc.
    + rewrite (LspFacts.running_handles_insert w' _ _ _
                 (fun h c Hl => proj2 (LspFacts.released_disposed env w Hok h c Hw Hl)) Hh).
      by rewrite decide_True.
    + by rewrite Hcs, LspFacts.released_calls, <- app_assoc.
Qed.

(** X2. The empty folder array: with [workspaceFolders] an empty array
    and the previous client released, [reInitialize] only asks
    discovery.  When discovery finds a file the read of [.uri] on line
    337 throws a TypeError, before the configuration is read or the
    resolver asked; when it finds none the call ends normally on the
    config-absent path.  Either way [client] is left undefined and no
    client is live. *)
Theorem reInitialize_empty_folder_array (env : Env) (w : World) :
  handle_inv w ->
  result (release_client env) w = Normal tt ->
  workspaceFolders env = Some [] ->
  let w' := exec (reInitialize env) w in
  let found := discoverWorkspaceConfigFiles env 1 <> [] in
  (found ->
     result (reInitialize env) w =
       Throw (TypeError "Cannot read properties of undefined (reading 'uri')") /\
     log w' = log w) /\
  (~ found ->
     result (reInitialize env) w = Normal tt /\
     log w' = (log w ++ [Info "Configuration file not found."])%list) /\
  client w' = None /\ live_handles w' = ∅ /\
  calls w' = (calls w ++ release_calls (client w) ++ [DiscoverWorkspaceConfigFiles 1])%list.
Proof.
  intros Hw Hok Hwf w' found. subst found.
  destruct (LspFacts.reInitialize_path env w Hok) as (cs & Hcs & Hp). fold w' in Hcs, Hp.
  rewrite LspFacts.released_calls, <- app_assoc in Hcs by done.
  assert (Hanc : ancestor_query env = []).
  { unfold ancestor_query, first_folder. rewrite Hwf. by destruct (0 <? _)%nat. }
  destruct Hp as [Hf Hr Hc Hh Hl -> | _ Hd Hr Hc Hh Hl -> | e _ Hne | cmd st _ Hne];
    [| |done..].
  - rewrite LspFacts.workspaceHasConfigFile_result in Hf.
    assert (Hd : discoverWorkspaceConfigFiles env 1 = []).
    { destruct (discoverWorkspaceConfigFiles env 1); [done|]. cbn in Hf. congruence. }
    rewrite Hanc, app_nil_r in Hcs.
    rewrite LspFacts.released_client in Hc by done.
    rewrite LspFacts.released_log in Hl by done.
    rewrite (LspFacts.live_handles_ext w' (released env w) Hh).
    rewrite LspFacts.live_handles_released by done.
    split_and!; try done.
  - rewrite LspFacts.released_client in Hc by done.
    rewrite LspFacts.released_log in Hl by done.
    rewrite (LspFacts.live_handles_ext w' (released env w) Hh).
    rewrite LspFacts.live_handles_released by done.
    split_and!; try done.
Qed.

(** X3. Order of the calls: one [reInitialize] first makes the calls
    of the release (stop and dispose when [stop] resolves, the stop
    alone when it rejects, none without a client); what follows is
    always an initial part of the same sequence: discovery with
    [maxResults] 1, the ancestor search (only when discovery found
    nothing and a first folder exists), the combined configuration of
    all folders, the resolver with the first folder's uri as [cwd] and
    no [configUri], the construction of the client and its start.  Each
    call is made at most once; nothing follows a stop that rejects; and
    the whole sequence is made exactly when the release completes and a
    client ends up assigned. *)
Theorem reInitialize_call_order (env : Env) (w : World) :
  let w' := exec (reInitialize env) w in
  exists cs cmd,
    calls w' =
      (calls w ++
       match result (release_client env) w with
       | Normal _ => release_calls (client w)
       | Throw _ => stop_calls (client w)
       end ++ cs)%list /\
    cs `prefix_of` full_sequence env (fresh (dom (heap w))) cmd /\
    (forall e, result (release_client env) w = Throw e -> cs = []) /\
    (result (release_client env) w = Normal tt /\ is_Some (client w') <->
     cs = full_sequence env (fresh (dom (heap w))) cmd).
Proof.
  intros w'.
  assert (Hshort : forall cs cmd, length cs < 5 ->
                                  cs <> full_sequence env (fresh (dom (heap w))) cmd).
  { intros cs cmd Hlen Heq. rewrite Heq in Hlen. unfold full_sequence in Hlen.
    rewrite !length_app in Hlen. cbn in Hlen. lia. }
  destruct (result (release_client env) w) as [[]|e0] eqn:Hok.
  2:{ destruct (LspFacts.reInitialize_rejected env w e0 Hok) as (h & Hc & _ & Hr).
      exists [], EmptyString. subst w'. unfold exec. rewrite Hr, Hc. cbn.
      split_and!; [done|apply prefix_nil|done|].
      split; [by intros [[=] _]|]. intros Heq.
      apply Hshort in Heq; [done|cbn; lia]. }
  destruct (LspFacts.reInitialize_path env w Hok) as (cs & Hcs & Hp). fold w' in Hcs, Hp.
  rewrite LspFacts.released_calls, <- app_assoc in Hcs by done.
  pose proof (LspFacts.released_client env w Hok) as Hnone.
  destruct Hp as [_ _ Hc _ _ -> | _ _ _ Hc _ _ -> | e _ _ _ _ Hc _ _ ->
                 | cmd st _ _ _ Hc _ -> _].
  - eexists _, EmptyString; split; [exact Hcs|]. rewrite Hc, Hnone. split_and!; [|done|].
    + eexists. unfold full_sequence. by rewrite <- app_assoc.
    + split; [by intros [_ [? [=]]]|].
      intros Heq. apply Hshort in Heq; [done|].
      rewrite length_app. destruct (ancestor_query_cases env) as [-> | (f & _ & _ & ->)];
        cbn; lia.
  - eexists _, EmptyString; split; [exact Hcs|]. rewrite Hc, Hnone. split_and!; [|done|].
    + by eexists.
    + split; [by intros [_ [? [=]]]|].
      intros Heq. apply Hshort in Heq; [done|]. cbn. lia.
  - eexists _, EmptyString; split; [exact Hcs|]. rewrite Hc, Hnone. split_and!; [|done|].
    + exists [NewLanguageClient (fresh (dom (heap w))) (server_options env EmptyString);
              ClientStart (fresh (dom (heap w)))].
      unfold full_sequence. by rewrite <- !app_assoc.
    + split; [by intros [_ [? [=]]]|].
      intros Heq. apply Hshort in Heq; [done|].
      rewrite !length_app. destruct (ancestor_query_cases env) as [-> | (f & _ & _ & ->)];
        cbn; lia.
  - rewrite LspFacts.released_dom in * by done. eexists _, cmd; split; [exact Hcs|].
    rewrite Hc. by split_and!.
Qed.

(** *** The life of one client *)

Lemma lifecycle_app h a b : lifecycle h (a ++ b) = (lifecycle h a ++ lifecycle h b)%list.
Proof. apply omap_app. Qed.

Lemma lifecycle_release h c :
  lifecycle h (release_calls c) =
  if decide (c = Some h) then [SStop 2000; SDispose] else [].
Proof.
  destruct c as [h0|]; [|rewrite decide_False by done; reflexivity].
  unfold lifecycle, release_calls. cbn [omap list_omap step_of].
  destruct (decide (h0 = h)) as [->|Hne].
  - by rewrite decide_True.
  - by rewrite decide_False by congruence.
Qed.

Lemma lifecycle_ancestor_query h env : lifecycle h (ancestor_query env) = [].
Proof. by destruct (ancestor_query_cases env) as [-> | (f & _ & _ & ->)]. Qed.

Lemma lifecycle_full_sequence h env hn cmd :
  lifecycle h (full_sequence env hn cmd) = if decide (hn = h) then [SNew; SStart] else [].
Proof.
  unfold full_sequence. rewrite !lifecycle_app, lifecycle_ancestor_query. cbn.
  by destruct (decide (hn = h)).
Qed.

Lemma released_lookup env w h :
  result (release_client env) w = Normal tt ->
  heap (released env w) !! h =
  if decide (client w = Some h)
  then (fun c => set_disposed (set_state Stopped c)) <$> heap w !! h
  else heap w !! h.
Proof.
  unfold released. LspFacts.unfold_lsp. unfold_eff.
  destruct (client w) as [h0|] eqn:E; cbn; [|by rewrite decide_False].
  destruct (stop env) as [[]|e]; cbn; [|done]. intros _.
  rewrite !lookup_alter.
  destruct (decide (h0 = h)) as [->|Hne].
  - rewrite !decide_True by done. by destruct (heap w !! h).
  - by rewrite !decide_False by congruence.
Qed.

Lemma expected_lifecycle_released k c :
  disposed c = false ->
  (expected_lifecycle k (Some c) ++ [SStop 2000; SDispose])%list =
  expected_lifecycle k (Some (set_disposed (set_state Stopped c))).
Proof.
  intros Hd. unfold expected_lifecycle. cbn [disposed set_disposed].
  by rewrite Hd, app_nil_r, <- !app_assoc.
Qed.

Lemma expected_lifecycle_rejected k c :
  disposed c = false ->
  (expected_lifecycle k (Some c) ++ [SStop 2000])%list = expected_lifecycle (S k) (Some c).
Proof.
  intros Hd. unfold expected_lifecycle. rewrite Hd, !app_nil_r.
  cbn [repeat]. rewrite repeat_cons. by rewrite <- !app_assoc.
Qed.

Lemma traced_released quiet env w :
  handle_inv w -> result (release_client env) w = Normal tt ->
  traced quiet w -> traced quiet (released env w).
Proof.
  intros [_ Hc _] Hok Hk h. destruct (Hk h) as (k & Hl & Hq). exists k. split; [|done].
  rewrite LspFacts.released_calls, lifecycle_app, lifecycle_release, released_lookup, Hl
    by done.
  case_decide as Hd; [|by rewrite app_nil_r].
  destruct (Hc h Hd) as (c & -> & Hdis). cbn [fmap option_fmap option_map].
  by apply expected_lifecycle_released.
Qed.

Lemma traced_rejected quiet h0 w :
  handle_inv w -> client w = Some h0 ->
  traced quiet w -> traced False (add_call (ClientStop h0 2000) w).
Proof.
  intros [_ Hc _] Hh0 Hk h. destruct (Hk h) as (k & Hl & _).
  unfold add_call. cbn [calls heap]. rewrite lifecycle_app, Hl.
  cbn [lifecycle omap list_omap step_of].
  destruct (decide (h0 = h)) as [->|Hne].
  - exists (S k). split; [|done].
    destruct (Hc h Hh0) as (c & -> & Hdis). by apply expected_lifecycle_rejected.
  - exists k. split; [by rewrite app_nil_r | done].
Qed.

Lemma traced_path quiet env w1 w' r cs :
  traced quiet w1 -> calls w' = (calls w1 ++ cs)%list -> path env w1 w' r cs ->
  traced quiet w'.
Proof.
  intros Hk Hcs Hp h. destruct (Hk h) as (k & Hl & Hq).
  rewrite Hcs, lifecycle_app, Hl.
  destruct Hp as [_ _ _ Hh _ -> | _ _ _ _ Hh _ -> | e _ _ _ _ _ Hh _ ->
                 | cmd st _ _ _ _ Hh -> _]; rewrite Hh.
  - exists k. rewrite lifecycle_app, lifecycle_ancestor_query. by rewrite app_nil_r.
  - exists k. by rewrite app_nil_r.
  - exists k. rewrite !lifecycle_app, lifecycle_ancestor_query. by rewrite app_nil_r.
  - rewrite lifecycle_full_sequence, lookup_insert.
    case_decide as Hd; [|exists k; by rewrite app_nil_r].
    subst h. exists 0. split; [|done].
    by rewrite (not_elem_of_dom_1 _ _ (is_fresh (dom (heap w1)))).
Qed.

Lemma traced_weaken (quiet quiet' : Prop) w :
  (quiet' -> quiet) -> traced quiet w -> traced quiet' w.
Proof. intros Hq Hk h. destruct (Hk h) as (k & Hl & H0). exists k. eauto. Qed.

Lemma traced_apply_op quiet o w :
  handle_inv w -> traced quiet w ->
  traced (quiet /\ stop_resolves o = true) (apply_op o w).
Proof.
  intros Hw Hk.
  assert (Hrej : forall env e h, stop env = Throw e -> client w = Some h ->
            traced (quiet /\ match stop env with Normal _ => true | Throw _ => false end = true)
              (add_call (ClientStop h 2000) w)).
  { intros env e h Hs Hc. apply (traced_weaken False); [|by eapply traced_rejected].
    rewrite Hs. by intros [_ ?]. }
  destruct o as [env|env]; cbn [apply_op stop_resolves];
    destruct (result (release_client env) w) as [[]|e] eqn:Hok.
  - destruct (LspFacts.reInitialize_path env w Hok) as (cs & Hcs & Hp).
    apply (traced_weaken quiet); [by intros [? _]|].
    eapply traced_path; [by apply traced_released | exact Hcs | exact Hp].
  - destruct (LspFacts.reInitialize_rejected env w e Hok) as (h & Hc & Hs & Hr).
    unfold exec. rewrite Hr. cbn [fst]. by eapply Hrej.
  - apply (traced_weaken quiet); [by intros [? _]|].
    unfold exec. rewrite LspFacts.dispose_released by done. cbn [fst].
    intros h. destruct (traced_released quiet env w Hw Hok Hk h) as (k & Hl & Hq).
    exists k. split; [|done]. unfold add_call. cbn [calls heap].
    rewrite lifecycle_app, Hl. cbn [lifecycle omap list_omap step_of]. by rewrite app_nil_r.
  - destruct (LspFacts.dispose_rejected env w e Hok) as (h & Hc & Hs & Hr).
    unfold exec. rewrite Hr. cbn [fst]. by eapply Hrej.
Qed.

Lemma traced_run_ops ops :
  handle_inv (run_ops ops empty) /\
  traced (forallb stop_resolves ops = true) (run_ops ops empty).
Proof.
  induction ops as [|o ops [Hw Hk]] using rev_ind.
  - split; [apply LspFacts.handle_inv_empty|]. intros h. exists 0. cbn.
    by rewrite lookup_empty.
  - unfold run_ops in *. rewrite fold_left_app. cbn [fold_left].
    split; [destruct o; [by apply LspFacts.reInitialize_inv | by apply LspFacts.dispose_inv]|].
    eapply traced_weaken; [|by apply traced_apply_op].
    rewrite forallb_app. cbn [forallb]. rewrite andb_true_r. by intros [? ?]%andb_prop.
Qed.

(** X4. The life of a client: in the trace of any sequence of completed
    [reInitialize] and [dispose] calls, every client is constructed
    once, then started once; every later release attempt stops it with
    the 2000 ms timeout, and it is disposed, once, right after the first
    of these stops that resolves; nothing is done with it after that.
    So the client assigned to [client] has been constructed, started
    and stopped only by stops that rejected; and when no [stop] ever
    rejects, each client is stopped at most once. *)
Theorem client_lifecycle (ops : list Op) (h : Handle) :
  let w := run_ops ops empty in
  (exists k,
     lifecycle h (calls w) = expected_lifecycle k (heap w !! h) /\
     (client w = Some h ->
        lifecycle h (calls w) = ([SNew; SStart] ++ repeat (SStop 2000) k)%list)) /\
  (forallb stop_resolves ops = true ->
     lifecycle h (calls w) = expected_lifecycle 0 (heap w !! h) /\
     lifecycle h (calls w) `prefix_of` [SNew; SStart; SStop 2000; SDispose]).
Proof.
  intros w. destruct (traced_run_ops ops) as [[_ Hc _] Hk]. fold w in Hc, Hk.
  destruct (Hk h) as (k & Hl & Hq). split.
  - exists k. split; [done|].
    intros Hh. rewrite Hl. destruct (Hc h Hh) as (c & -> & Hdis). cbn.
    by rewrite Hdis, app_nil_r.
  - intros Hquiet. rewrite (Hq Hquiet) in Hl. split; [done|]. rewrite Hl.
    destruct (heap w !! h) as [c|]; cbn; [|apply prefix_nil].
    destruct (disposed c); [done | by exists [SStop 2000; SDispose]].
Qed.

(** X5. The session invariant: after any sequence of completed
    [reInitialize] and [dispose] calls, whatever their outcomes, at most
    one client is live (constructed and not disposed), it is the one
    assigned to [client], and a running client is live: no client of an
    earlier call is still running or waiting to be disposed. *)
Theorem session_one_live_client (ops : list Op) :
  let w := run_ops ops empty in
  size (live_handles w) <= 1 /\
  live_handles w = match client w with Some h => {[h]} | None => ∅ end /\
  running_handles w ⊆ live_handles w /\
  (client w = None -> running_handles w = ∅).
Proof.
  intros w. pose proof (LspFacts.handle_inv_reachable ops) as Hw. fold w in Hw.
  pose proof (LspFacts.running_handles_live w Hw) as Hsub.
  pose proof (LspFacts.live_handles_owned w Hw) as Hown.
  split_and!; try done.
  - by apply LspFacts.at_most_one_live.
  - intros Hnone. rewrite Hnone in Hown. rewrite Hown in Hsub.
    apply set_eq. intros h. split; [apply Hsub | set_solver].
Qed.

(** *** Instances of the theorems above *)

Lemma reInitialize_starts_client_witness :
  let w := exec (reInitialize env_no_config) (exec (reInitialize env_ok) empty) in
  handle_inv w /\
  result (release_client env_ok) w = Normal tt /\
  result (workspaceHasConfigFile env_ok) w = Normal true /\
  workspaceFolders env_ok <> Some [] /\
  resolveCmdPath env_ok (resolve_args env_ok) = Normal "dprint" /\
  start env_ok = Normal tt /\
  exists h,
    client (exec (reInitialize env_ok) w) = Some h /\
    running_handles (exec (reInitialize env_ok) w) = {[h]}.
Proof.
  intros w.
  assert (Hw : handle_inv w)
    by (apply LspFacts.reInitialize_inv, LspFacts.reInitialize_inv, LspFacts.handle_inv_empty).
  assert (Hf : workspaceFolders env_ok <> Some []) by discriminate.
  split; [exact Hw|]. split; [reflexivity|]. split; [reflexivity|].
  split; [exact Hf|]. split; [reflexivity|]. split; [reflexivity|].
  destruct (reInitialize_starts_client env_ok w "dprint" Hw eq_refl eq_refl Hf eq_refl eq_refl)
    as (h & _ & Hc & _ & _ & _ & Hr & _).
  exists h. split; [exact Hc | exact Hr].
Defined.

Lemma reInitialize_empty_folder_array_witness :
  let w := exec (reInitialize env_ok) empty in
  handle_inv w /\
  result (release_client env_no_folders) w = Normal tt /\
  workspaceFolders env_no_folders = Some [] /\
  client (exec (reInitialize env_no_folders) w) = None /\
  calls (exec (reInitialize env_no_folders) w) =
    (calls w ++ release_calls (client w) ++ [DiscoverWorkspaceConfigFiles 1])%list.
Proof.
  intros w.
  assert (Hw : handle_inv w) by (apply LspFacts.reInitialize_inv, LspFacts.handle_inv_empty).
  split; [exact Hw|]. split; [reflexivity|]. split; [reflexivity|].
  destruct (reInitialize_empty_folder_array env_no_folders w Hw eq_refl eq_refl)
    as (_ & _ & Hc & _ & Hcalls).
  split; [exact Hc | exact Hcalls].
Defined.

End LspMore.

(** ** More on the debouncing controller *)

Module ExtensionMore.
Import Extension ExtensionObs.

Lemma reachable_inv es : ctl_inv (run es activate).
Proof. apply ExtensionFacts.ctl_inv_run, ExtensionFacts.ctl_inv_activate. Qed.

(** X6. No request is lost: after a trigger a run is owed (a timer is
    armed, or the run in flight is marked to arm one when it settles),
    and in every reachable state a run that is owed stays owed through
    every event until a run starts. *)
Theorem trigger_not_lost (es : list Event) (e : Event) :
  let s := run es activate in
  scheduled (step Trigger s) /\
  (scheduled s -> scheduled (step e s) \/ runs (step e s) = S (runs s)).
Proof.
  intros s. pose proof (reachable_inv es) as Hs. fold s in Hs. clearbody s.
  pose proof Hs as [Ht Hf Hp]. unfold scheduled, step, exec.
  split.
  - cbn [handle]. rewrite ExtensionFacts.debounceReInitializeBackend_spec by done.
    destruct (isReInitializing s) eqn:Hb; ExtensionFacts.simpl_state.
    + by right.
    + left. apply insert_non_empty.
  - intros Hsch. destruct e as [| |t|env].
    + cbn [handle]. rewrite ExtensionFacts.debounceReInitializeBackend_spec by done.
      destruct (isReInitializing s) eqn:Hb; ExtensionFacts.simpl_state.
      * left. by right.
      * left. left. apply insert_non_empty.
    + cbn [handle]. rewrite ExtensionFacts.reInitializeBackend_spec.
      destruct (isReInitializing s) eqn:Hb; ExtensionFacts.simpl_state.
      * left. right. by rewrite ?Hb.
      * by right.
    + rewrite ExtensionFacts.handle_Fire_spec by done.
      destruct (timers s !! t); [|by left].
      rewrite ExtensionFacts.reInitializeBackend_spec. ExtensionFacts.simpl_state.
      destruct (isReInitializing s) eqn:Hb; ExtensionFacts.simpl_state.
      * left. right. by rewrite ?Hb.
      * by right.
    + rewrite ExtensionFacts.handle_Settle_spec.
      destruct (inflight s) as [|n] eqn:Hn; [by left|].
      rewrite ExtensionFacts.reInitializeBackend_settled_spec by done.
      ExtensionFacts.simpl_state.
      destruct (pendingReInit s) eqn:Hpend; ExtensionFacts.simpl_state.
      * left. left. apply insert_non_empty.
      * left. left. destruct Hsch as [Hne|[_ ?]]; [done|congruence].
Qed.

Lemma runs_step e s : calls_reInitializeBackend e = false -> runs (step e s) = runs s.
Proof.
  intros He. unfold step, exec. destruct e as [| |t|env]; try done.
  - destruct s as [busy pend rt ts nt inf rn w]. cbn [handle].
    ExtensionFacts.unfold_ext; unfold_eff. by destruct rt as [t|], busy.
  - rewrite ExtensionFacts.handle_Settle_spec. destruct (inflight s); [done|].
    match goal with |- context [reInitializeBackend_settled ?r ?s0] =>
      destruct (ExtensionFacts.reInitializeBackend_settled_always r s0)
        as (_ & _ & _ & _ & _ & Hr & _)
    end.
    unfold exec, result in *. by rewrite Hr.
Qed.

(** X7. Only a timer or a direct call starts a run: through any
    sequence of triggers and settlings, from any state, the number of
    runs started stays the same.  In particular
    [debounceReInitializeBackend] never starts a run itself, and the
    follow-up run owed after a busy period is started by a timer, not by
    the settling of the run before. *)
Theorem no_run_without_timer (es : list Event) (s : State) :
  forallb (fun e => negb (calls_reInitializeBackend e)) es = true ->
  runs (run es s) = runs s.
Proof.
  revert s. induction es as [|e es IH]; intros s Hes; [done|].
  cbn in Hes. apply andb_prop in Hes as [He Hes].
  cbn [run fold_left]. change (runs (run es (step e s)) = runs s).
  rewrite IH by done. apply runs_step. by destruct (calls_reInitializeBackend e).
Qed.

Lemma idle_round_spec env s :
  ctl_inv s ->
  let s1 := idle_round env s in
  ctl_inv s1 /\ isReInitializing s1 = false /\
  (isReInitializing s = false ->
     timers s1 = ∅ /\ (timers s = ∅ -> runs s1 = runs s) /\
     (timers s <> ∅ -> runs s1 = S (runs s))) /\
  (isReInitializing s = true ->
     runs s1 = runs s /\ (scheduled s -> timers s1 <> ∅) /\
     (~ scheduled s -> timers s1 = ∅)).
Proof.
  intros Hs s1.
  assert (Hs1 : ctl_inv s1).
  { unfold s1, idle_round. apply ExtensionFacts.ctl_inv_step.
    destruct (reInitializeTimeout s); [by apply ExtensionFacts.ctl_inv_step | done]. }
  pose proof Hs as [Ht Hf Hp].
  assert (Hstale : timers s = ∅ ->
            match reInitializeTimeout s with Some t => step (Fire t) s | None => s end = s).
  { intros He. destruct (reInitializeTimeout s) as [t|]; [|done].
    unfold step, exec. by rewrite ExtensionFacts.handle_Fire_spec, He, lookup_empty. }
  destruct (isReInitializing s) eqn:Hb.
  - (* a run is in flight *)
    assert (E : exists pend,
              (pend = true <-> scheduled s) /\
              match reInitializeTimeout s with Some t => step (Fire t) s | None => s end =
              {| isReInitializing := true; pendingReInit := pend;
                 reInitializeTimeout := reInitializeTimeout s; timers := ∅;
                 nextTimer := nextTimer s; inflight := 1; runs := runs s;
                 backend := backend s |}).
    { destruct Ht as [He | (t & He & Hr)].
      - exists (pendingReInit s). rewrite (Hstale He). split.
        + unfold scheduled. rewrite He, Hb. split; [by right|]. by intros [?|[_ ?]].
        + destruct s as [busy pend rt ts nt inf rn w]. cbn in *. by subst.
      - exists true. split.
        + split; [|done]. intros _. left. rewrite He. apply insert_non_empty.
        + rewrite Hr. unfold step, exec.
          rewrite ExtensionFacts.handle_Fire_spec, He, lookup_singleton_eq by by right; eauto.
          rewrite ExtensionFacts.reInitializeBackend_spec. ExtensionFacts.simpl_state.
          by rewrite Hb, Hf, Hr. }
    destruct E as (pend & Hpend & E).
    assert (E1 : s1 = if pend
              then {| isReInitializing := false; pendingReInit := false;
                      reInitializeTimeout := Some (nextTimer s);
                      timers := {[nextTimer s := 250]};
                      nextTimer := S (nextTimer s); inflight := 0; runs := runs s;
                      backend := backend s1 |}
              else {| isReInitializing := false; pendingReInit := false;
                      reInitializeTimeout := reInitializeTimeout s; timers := ∅;
                      nextTimer := nextTimer s; inflight := 0; runs := runs s;
                      backend := backend s1 |}).
    { unfold s1, idle_round. rewrite E. unfold step, exec.
      rewrite ExtensionFacts.handle_Settle_spec. ExtensionFacts.simpl_state.
      rewrite ExtensionFacts.reInitializeBackend_settled_spec by by left.
      ExtensionFacts.simpl_state. by destruct pend. }
    split; [done|]. rewrite E1.
    destruct pend; ExtensionFacts.simpl_state; split_and!; try done.
    + intros _. split_and!; [done| |].
      * intros _. apply insert_non_empty.
      * intros Hn. destruct Hn. by apply Hpend.
    + intros _. split_and!; [done| |done].
      intros Hsch. by apply Hpend in Hsch.
  - (* no run is in flight *)
    specialize (Hp eq_refl).
    destruct Ht as [He | (t & He & Hr)].
    + assert (E1 : s1 = s).
      { unfold s1, idle_round. rewrite (Hstale He). unfold step, exec.
        by rewrite ExtensionFacts.handle_Settle_spec, Hf. }
      rewrite E1. split; [done|]. by split_and!.
    + destruct (ExtensionFacts.fire_then_settle s t env Hs Hb He)
        as (_ & _ & _ & _ & Hr2 & (Ht2 & Hb2 & _)).
      subst s1. unfold idle_round in *. rewrite Hr in Hs1 |- *.
      split; [done|]. split_and!; try done.
      intros _. split_and!; try done.
      intros He'. rewrite He in He'. by apply map_non_empty_singleton in He'.
Qed.

(** X8. The controller comes to rest: from any state it can reach, if
    no further request arrives and the event loop is left to itself
    (the armed timer fires, the run in flight settles, with any
    outcomes), then after two such rounds no timer is armed, no run is
    in flight and nothing is pending; on the way exactly one run was
    started if one was owed, and none otherwise. *)
Theorem controller_comes_to_rest (es : list Event) (env1 env2 : Lsp.Env) :
  let s := run es activate in
  let s' := idle_round env2 (idle_round env1 s) in
  quiescent s' /\
  (scheduled s -> runs s' = S (runs s)) /\
  (~ scheduled s -> runs s' = runs s).
Proof.
  intros s s'.
  pose proof (ExtensionFacts.ctl_inv_run es activate ExtensionFacts.ctl_inv_activate) as Hs.
  fold s in Hs.
  destruct (idle_round_spec env1 s Hs) as (Hs1 & Hb1 & Hidle & Hbusy).
  destruct (idle_round_spec env2 _ Hs1) as ([_ Hf2 Hp2] & Hb2 & Hidle2 & _).
  fold s' in Hf2, Hp2, Hb2, Hidle2.
  destruct (Hidle2 Hb1) as (Ht2 & Hsame & Hmore).
  split.
  { split_and!; try done; [by apply Hp2 | by rewrite Hf2, Hb2]. }
  destruct (isReInitializing s) eqn:Hb.
  - destruct (Hbusy eq_refl) as (Hr1 & Hyes & Hno). split.
    + intros Hsch. rewrite Hmore by by apply Hyes. by rewrite Hr1.
    + intros Hsch. rewrite Hsame by by apply Hno. done.
  - destruct (Hidle eq_refl) as (Ht1 & Hr0 & Hr1). rewrite (Hsame Ht1).
    pose proof (Extension.inv_pending s Hs Hb) as Hp.
    split.
    + intros [Hne | [? _]]; [by apply Hr1 | congruence].
    + intros Hn. apply Hr0. destruct (decide (timers s = ∅)) as [?|Hne]; [done|].
      destruct Hn. by left.
Qed.


Lemma reports_app l1 l2 : reports (l1 ++ l2) = reports l1 + reports l2.
Proof. unfold reports. by rewrite List.filter_app, length_app. Qed.

Lemma reports_reInitialize env w :
  reports (Lsp.log (exec (Lsp.reInitialize env) w)) = reports (Lsp.log w).
Proof.
  destruct (result (Lsp.release_client env) w) as [[]|e0] eqn:Hok.
  2:{ destruct (LspFacts.reInitialize_rejected env w e0 Hok) as (h & _ & _ & Hr).
      unfold exec. by rewrite Hr. }
  destruct (LspFacts.reInitialize_ending env w Hok) as (cs & _ & _ & He).
  rewrite <- (LspFacts.released_log env w Hok).
  destruct He as [_ _ _ _ Hl _ | e _ _ _ _ Hl _ _ | a cmd c _ _ _ _ _ _ Hst].
  - rewrite Hl, reports_app. cbn. lia.
  - by rewrite Hl.
  - destruct Hst as [(_ & _ & _ & Hl) | (e & _ & _ & _ & Hl)]; rewrite Hl; [|done].
    rewrite reports_app. cbn. lia.
Qed.

Lemma reports_outcome r : reports [outcome_entry r] = 1.
Proof. by destruct r as [[]|err]. Qed.

(** X10. Every run is reported once: in every reachable state the log
    holds exactly one line "Extension active!" or "Error initializing:"
    for each run that has settled, that is, for each run started and no
    longer in flight. *)
Theorem one_report_per_run (es : list Event) :
  let s := run es activate in
  reports (Lsp.log (backend s)) + inflight s = runs s.
Proof.
  cbv zeta. unfold run.
  assert (H0 : reports (Lsp.log (backend activate)) + inflight activate = runs activate)
    by reflexivity.
  revert H0. generalize activate.
  induction es as [|e es IH]; intros s Hs; [done|].
  cbn [fold_left]. apply IH. unfold step, exec. destruct e as [| |t|env].
  - destruct s as [busy pend rt ts nt inf rn w]. cbn [handle].
    ExtensionFacts.unfold_ext; unfold_eff. by destruct rt as [t|], busy.
  - cbn [handle]. rewrite ExtensionFacts.reInitializeBackend_spec.
    destruct (isReInitializing s); ExtensionFacts.simpl_state; lia.
  - destruct s as [busy pend rt ts nt inf rn w]. cbn [handle].
    ExtensionFacts.unfold_ext; unfold_eff. ExtensionFacts.simpl_state.
    destruct (ts !! t); [|done]. destruct busy; ExtensionFacts.simpl_state; lia.
  - rewrite ExtensionFacts.handle_Settle_spec.
    destruct (inflight s) as [|n] eqn:Hn; [cbn [fst]; by rewrite Hn|].
    match goal with |- context [reInitializeBackend_settled ?r ?s0] =>
      destruct (ExtensionFacts.reInitializeBackend_settled_always r s0)
        as (_ & _ & _ & Hw & Hi & Hr & _)
    end.
    unfold exec, result in *. rewrite Hw, Hi, Hr. ExtensionFacts.simpl_state.
    unfold Lsp.add_log. cbn [Lsp.log].
    rewrite reports_app, reports_outcome.
    pose proof (reports_reInitialize env (backend s)) as Hrep. unfold exec in Hrep.
    rewrite Hrep. lia.
Qed.

(** *** Instances of the theorems above *)

Lemma no_run_without_timer_witness :
  forallb (fun e => negb (calls_reInitializeBackend e))
    [Trigger; Settle Lsp.env_ok; Trigger] = true /\
  runs (run [Trigger; Settle Lsp.env_ok; Trigger] activate) = runs activate.
Proof.
  split; [reflexivity|].
  exact (no_run_without_timer [Trigger; Settle Lsp.env_ok; Trigger] activate eq_refl).
Defined.

End ExtensionMore.

(** ** The configuration listener *)

Module ConfigurationWatchFacts.
Import ConfigurationWatch.

Ltac simpl_watch :=
  unfold set_controller, set_hasShownLspWarning, set_warnings, set_reloads in *;
  cbn [controller backendIsLsp hasShownLspWarning openWarnings warnings reloads fst snd
       andb negb] in *.

Lemma onDidChangeConfiguration_spec env s :
  onDidChangeConfiguration true env s =
  (if negb (Bool.eqb (isLsp env) (backendIsLsp s)) && negb (hasShownLspWarning s) then
     {| controller := controller s; backendIsLsp := backendIsLsp s;
        hasShownLspWarning := true; openWarnings := S (openWarnings s);
        warnings := S (warnings s); reloads := reloads s |}
   else
     {| controller := Extension.step Extension.Trigger (controller s);
        backendIsLsp := backendIsLsp s;
        hasShownLspWarning := false; openWarnings := openWarnings s;
        warnings := warnings s; reloads := reloads s |},
   Normal tt).
Proof.
  destruct s as [c m shown o n r].
  unfold onDidChangeConfiguration, showReloadMessage, on_controller. unfold_eff. simpl_watch.
  destruct (negb (Bool.eqb (isLsp env) m) && negb shown); simpl_watch; [done|].
  unfold Extension.step, exec. cbn [Extension.handle].
  pose proof (ExtensionFacts.handle_normal Extension.Trigger c) as Hn.
  unfold result in Hn. cbn [Extension.handle] in Hn.
  destruct (Extension.debounceReInitializeBackend c) as [c' r']. cbn in *. by subst r'.
Qed.

Lemma step_changed env s :
  step (ConfigurationChanged true env) s =
  fst (onDidChangeConfiguration true env s).
Proof. reflexivity. Qed.

(** The controller inside is always in a state the controller alone
    could have reached. *)
Lemma watch_ctl_inv mode es : Extension.ctl_inv (controller (run es (activate mode))).
Proof.
  unfold run.
  assert (H0 : Extension.ctl_inv (controller (activate mode)))
    by apply ExtensionFacts.ctl_inv_activate.
  revert H0. generalize (activate mode).
  induction es as [|e es IH]; intros s Hs; [done|].
  cbn [fold_left]. apply IH. destruct e as [e|[] env|sel].
  - unfold step, exec. cbn [handle]. unfold on_controller. unfold_eff.
    pose proof (ExtensionFacts.ctl_inv_step e _ Hs) as Hstep.
    unfold Extension.step, exec in Hstep.
    destruct (Extension.handle e (controller s)) as [c' r']. by simpl_watch.
  - rewrite step_changed, onDidChangeConfiguration_spec.
    destruct (negb _ && negb _); simpl_watch; [done|].
    by apply ExtensionFacts.ctl_inv_step.
  - done.
  - destruct s as [c m shown o n r]. unfold step, exec. cbn [handle].
    unfold reloadMessage_answered, reloadWindow. unfold_eff. simpl_watch.
    destruct o; [done|]. by case_decide.
Qed.

(** X11. The reload warning alternates with reinitialization: while the
    [experimentalLsp] setting differs from the mode of the running
    backend, the first change of the dprint settings shows the reload
    message and leaves the controller alone, and the next one shows
    nothing and triggers a reinitialization of the backend that is
    running, and so on in turn: after [2k] such changes [k] messages
    were shown and [k] triggers made. *)
Theorem mode_warning_alternates (env : Lsp.Env) (k : nat) (s : State) :
  isLsp env <> backendIsLsp s ->
  hasShownLspWarning s = false ->
  let changed := ConfigurationChanged true env in
  let even := run (repeat changed (k * 2)) s in
  let odd := step changed even in
  (warnings even = warnings s + k /\ hasShownLspWarning even = false /\
   controller even = Extension.run (repeat Extension.Trigger k) (controller s)) /\
  (warnings odd = warnings s + k + 1 /\ hasShownLspWarning odd = true /\
   controller odd = controller even).
Proof.
  intros Hmode Hshown changed. subst changed.
  set (changed := ConfigurationChanged true env).
  assert (Hne : forall s0, backendIsLsp s0 = backendIsLsp s ->
                negb (Bool.eqb (isLsp env) (backendIsLsp s0)) = true).
  { intros s0 ->. destruct (isLsp env), (backendIsLsp s); try done; by destruct Hmode. }
  assert (Heven : forall k s0,
            backendIsLsp s0 = backendIsLsp s -> hasShownLspWarning s0 = false ->
            let even := run (repeat changed (k * 2)) s0 in
            warnings even = warnings s0 + k /\ hasShownLspWarning even = false /\
            backendIsLsp even = backendIsLsp s /\
            controller even =
              Extension.run (repeat Extension.Trigger k) (controller s0)).
  { clear k. induction k as [|k IH]; intros s0 Hm Hsh; cbn zeta.
    - cbn. split_and!; try done; lia.
    - change (S k * 2) with (S (S (k * 2))). cbn [repeat run fold_left].
      change (fold_left (fun s e => step e s) (repeat changed (k * 2))
                (step changed (step changed s0)))
        with (run (repeat changed (k * 2)) (step changed (step changed s0))).
      assert (E2 : step changed (step changed s0) =
                   {| controller := Extension.step Extension.Trigger (controller s0);
                      backendIsLsp := backendIsLsp s0; hasShownLspWarning := false;
                      openWarnings := S (openWarnings s0); warnings := S (warnings s0);
                      reloads := reloads s0 |}).
      { subst changed. rewrite !step_changed.
        rewrite (onDidChangeConfiguration_spec env s0), (Hne s0 Hm), Hsh. simpl_watch.
        rewrite onDidChangeConfiguration_spec. simpl_watch.
        by rewrite andb_false_r. }
      rewrite E2.
      match goal with |- context [run _ ?s2] =>
        destruct (IH s2) as (Hw & Hf & Hb & Hc); [by simpl_watch..|]
      end.
      simpl_watch. rewrite Hw, Hf, Hb, Hc. split_and!; try done; lia. }
  cbv zeta. destruct (Heven k s eq_refl Hshown) as (Hw & Hf & Hb & Hc).
  split; [done|].
  pose proof (step_changed env) as Hstep. fold changed in Hstep.
  rewrite Hstep, onDidChangeConfiguration_spec.
  rewrite (Hne _ Hb), Hf. simpl_watch. split_and!; try done; lia.
Qed.

Lemma matching_changes env n s :
  isLsp env = backendIsLsp s ->
  let s' := run (repeat (ConfigurationChanged true env) n) s in
  controller s' = Extension.run (repeat Extension.Trigger n) (controller s) /\
  warnings s' = warnings s /\ backendIsLsp s' = backendIsLsp s.
Proof.
  revert s. induction n as [|n IH]; intros s Hm; [done|].
  cbn [repeat run fold_left].
  change (fold_left (fun s e => step e s) (repeat (ConfigurationChanged true env) n)
            (step (ConfigurationChanged true env) s))
    with (run (repeat (ConfigurationChanged true env) n)
            (step (ConfigurationChanged true env) s)).
  assert (E : step (ConfigurationChanged true env) s =
              {| controller := Extension.step Extension.Trigger (controller s);
                 backendIsLsp := backendIsLsp s; hasShownLspWarning := false;
                 openWarnings := openWarnings s; warnings := warnings s;
                 reloads := reloads s |}).
  { rewrite step_changed, onDidChangeConfiguration_spec, Hm.
    by rewrite Bool.eqb_reflx. }
  rewrite E.
  match goal with |- context [run _ ?s1] =>
    destruct (IH s1) as (Hc & Hw & Hb); [by simpl_watch|]
  end.
  cbv zeta. rewrite Hc, Hw, Hb. by simpl_watch.
Qed.

(** X12. A burst of settings changes gives one reinitialization: when
    the [experimentalLsp] setting agrees with the mode of the backend,
    [n >= 1] changes of the dprint settings arriving while no run is in
    flight and before any timer fires show no message, start no run and
    leave exactly one timer armed, the last; that timer starts exactly
    one run. *)
Theorem settings_burst_one_run (mode : bool) (history : list Event) (env : Lsp.Env)
    (n : nat) :
  let s := run history (activate mode) in
  isLsp env = backendIsLsp s ->
  Extension.isReInitializing (controller s) = false ->
  1 <= n ->
  let s' := run (repeat (ConfigurationChanged true env) n) s in
  let t := Extension.nextTimer (controller s) + n - 1 in
  warnings s' = warnings s /\
  Extension.runs (controller s') = Extension.runs (controller s) /\
  Extension.timers (controller s') = {[t := 250]} /\
  Extension.runs (Extension.step (Extension.Fire t) (controller s')) =
    S (Extension.runs (controller s)).
Proof.
  intros s Hm Hb Hn s' t.
  pose proof (watch_ctl_inv mode history) as Hs. fold s in Hs.
  destruct (matching_changes env n s Hm) as (Hc & Hw & _). fold s' in Hc, Hw.
  destruct n as [|n]; [lia|].
  pose proof Hs as [Ht Hf Hp].
  rewrite ExtensionFacts.run_triggers_idle in Hc by done.
  assert (Hs' : Extension.ctl_inv (controller s')).
  { rewrite Hc. split; ExtensionFacts.simpl_state;
      [right; by eexists | by rewrite Hf, Hb | intros _; by apply Hp]. }
  assert (Et : Extension.nextTimer (controller s) + n = t) by (unfold t; lia).
  rewrite Et in Hc.
  destruct (ExtensionFacts.fire_then_settle (controller s') t env Hs')
    as (Hr & _); [by rewrite Hc | by rewrite Hc |].
  rewrite Hr, Hc, Hw. by ExtensionFacts.simpl_state.
Qed.

Lemma reloads_step e s :
  reloads (step e s) = reloads s \/
  (chooses_reload e = true /\ reloads (step e s) = S (reloads s)).
Proof.
  destruct e as [e|[] env|sel].
  - left. unfold step, exec. cbn [handle]. unfold on_controller. unfold_eff.
    by destruct (Extension.handle e (controller s)).
  - left. rewrite step_changed, onDidChangeConfiguration_spec.
    by destruct (negb _ && negb _).
  - by left.
  - destruct s as [c m shown o n r]. unfold step, exec. cbn [handle].
    unfold reloadMessage_answered, reloadWindow. unfold_eff. simpl_watch.
    destruct o; [by left|]. case_decide as Hsel; simpl_watch; [right|by left].
    split; [|done]. cbn. by rewrite bool_decide_true.
Qed.

(** X13. The window is reloaded only at the user's word: through any
    sequence of events in which the user never chooses "Reload", the
    reload command is never executed; showing the warning, dismissing
    it, settings changes and everything the controller does leave it
    alone. *)
Theorem reload_only_on_request (es : list Event) (s : State) :
  forallb (fun e => negb (chooses_reload e)) es = true ->
  reloads (run es s) = reloads s.
Proof.
  revert s. induction es as [|e es IH]; intros s Hes; [done|].
  cbn in Hes. apply andb_prop in Hes as [He Hes].
  cbn [run fold_left]. change (reloads (run es (step e s)) = reloads s).
  rewrite IH by done.
  destruct (reloads_step e s) as [? | [Hc _]]; [done|].
  rewrite Hc in He. done.
Qed.

(** *** Instances of the theorems above *)

Lemma mode_warning_alternates_witness :
  let s := activate false in
  let changed := ConfigurationChanged true Lsp.env_ok in
  isLsp Lsp.env_ok <> backendIsLsp s /\
  hasShownLspWarning s = false /\
  warnings (step changed (run (repeat changed (1 * 2)) s)) = warnings s + 1 + 1.
Proof.
  intros s changed.
  assert (Hm : isLsp Lsp.env_ok <> backendIsLsp s) by discriminate.
  split; [exact Hm|]. split; [reflexivity|].
  destruct (mode_warning_alternates Lsp.env_ok 1 s Hm eq_refl) as (_ & H & _).
  exact H.
Defined.

Lemma settings_burst_one_run_witness :
  let s := run [] (activate true) in
  isLsp Lsp.env_ok = backendIsLsp s /\
  Extension.isReInitializing (controller s) = false /\
  1 <= 3 /\
  Extension.timers (controller (run (repeat (ConfigurationChanged true Lsp.env_ok) 3) s)) =
    {[Extension.nextTimer (controller s) + 3 - 1 := 250]}.
Proof.
  intros s.
  assert (Hn : 1 <= 3) by lia.
  split; [reflexivity|]. split; [reflexivity|]. split; [exact Hn|].
  destruct (settings_burst_one_run true [] Lsp.env_ok 3 eq_refl eq_refl Hn)
    as (_ & _ & H & _).
  exact H.
Defined.

Lemma reload_only_on_request_witness :
  let es := [ConfigurationChanged true Lsp.env_ok; ReloadAnswered None;
             ConfigurationChanged true Lsp.env_ok; ReloadAnswered (Some "Dismiss")] in
  forallb (fun e => negb (chooses_reload e)) es = true /\
  reloads (run es (activate false)) = reloads (activate false).
Proof.
  intros es. split; [reflexivity|].
  exact (reload_only_on_request es (activate false) eq_refl).
Defined.

End ConfigurationWatchFacts.

(** ** The prompting controller *)

Module PromptingFacts.
Import Prompting.

Ltac unfold_prompting :=
  unfold step, handle, reInitializeBackend_settled, reInitializeBackend,
    promptReInitializeBackend, prompt_answered, onDidChangeConfiguration,
    reloadMessage_answered, logInfo, logError, on_backend, Lsp.logInfo, Lsp.logError in *.

Ltac simpl_prompting :=
  unfold set_isReInitializing, set_configChangePromptVisible, set_hasShownLspWarning,
    set_messages, set_inflight, set_backend in *;
  cbn [isReInitializing configChangePromptVisible hasShownLspWarning openPrompts
       openWarnings reloads inflight runs backend backendIsLsp fst snd] in *.

(** What a settling does, whatever the outcome. *)
Lemma prompting_Settle_spec env s :
  handle (Settle env) s =
  match inflight s with
  | O => (s, Normal tt)
  | S n =>
      ({| isReInitializing := false;
          configChangePromptVisible := configChangePromptVisible s;
          hasShownLspWarning := hasShownLspWarning s; openPrompts := openPrompts s;
          openWarnings := openWarnings s; reloads := reloads s; inflight := n;
          runs := runs s;
          backend := Lsp.add_log
                       (Extension.outcome_entry (result (Lsp.reInitialize env) (backend s)))
                       (exec (Lsp.reInitialize env) (backend s));
          backendIsLsp := backendIsLsp s |}, Normal tt)
  end.
Proof.
  destruct s as [busy vis shown p o r inf rn w m].
  cbn [handle]. unfold_prompting. unfold_eff. simpl_prompting.
  destruct inf as [|n]; [done|]. simpl_prompting.
  destruct (Lsp.reInitialize env w) as [w' [[]|err]]; by simpl_prompting.
Qed.

Lemma prompt_inv_step e s : prompt_inv s -> prompt_inv (step e s).
Proof.
  intros Hs. pose proof Hs as [Hp Hf]. unfold step, exec. destruct e as [| |[] env|sel|sel|env].
  7: { rewrite prompting_Settle_spec. destruct (inflight s) as [|n] eqn:Hn; [exact Hs|].
       split; simpl_prompting; [done|]. destruct (isReInitializing s); [|done].
       by injection Hf as ->. }
  all: destruct s as [busy vis shown p o r inf rn w m]; cbn [handle];
    unfold_prompting; unfold_eff; simpl_prompting.
  - destruct busy; split; simpl_prompting; try done. by subst inf.
  - destruct vis; split; simpl_prompting; try done. by subst p.
  - destruct (negb _ && negb shown); simpl_prompting; [by split|].
    destruct vis; split; simpl_prompting; try done. by subst p.
  - by split.
  - destruct p as [|p']; [by split|]. simpl_prompting.
    destruct vis; [|done]. injection Hp as ->.
    case_decide; simpl_prompting; [|by split].
    destruct busy; split; simpl_prompting; try done. by subst inf.
  - destruct o as [|o']; [by split|]. simpl_prompting.
    case_decide; by split.
Qed.

Lemma prompt_inv_reachable mode es : prompt_inv (run es (activate mode)).
Proof.
  unfold run. assert (H0 : prompt_inv (activate mode)) by by split.
  revert H0. generalize (activate mode).
  induction es as [|e es IH]; intros s Hs; [done|].
  cbn [fold_left]. apply IH. by apply prompt_inv_step.
Qed.

(** X14. Prompts never stack: in every reachable state at most one
    refresh prompt is on screen, and [configChangePromptVisible] is true
    exactly while one is; while it is, further file changes change
    nothing at all. *)
Theorem prompts_never_stack (mode : bool) (es : list Event) :
  let s := run es (activate mode) in
  openPrompts s <= 1 /\
  (configChangePromptVisible s = true <-> openPrompts s = 1) /\
  (configChangePromptVisible s = true -> step FileChanged s = s).
Proof.
  intros s. destruct (prompt_inv_reachable mode es) as [Hp _]. fold s in Hp. clearbody s.
  split_and!.
  - rewrite Hp. destruct (configChangePromptVisible s); lia.
  - rewrite Hp. by destruct (configChangePromptVisible s).
  - intros Hv. destruct s as [busy vis shown p o r inf rn w m]. simpl_prompting. subst vis.
    reflexivity.
Qed.

Lemma prompting_runs_step e s : asks_run e = false -> runs (step e s) = runs s.
Proof.
  intros He. unfold step, exec. destruct e as [| |[] env|sel|sel|env]; try done.
  5: { rewrite prompting_Settle_spec. by destruct (inflight s). }
  all: destruct s as [busy vis shown p o r inf rn w m]; cbn [handle];
    unfold_prompting; unfold_eff; simpl_prompting.
  - by destruct vis.
  - destruct (negb _ && negb shown); simpl_prompting; [done|]. by destruct vis.
  - destruct p as [|p']; [done|]. simpl_prompting.
    cbn in He. case_decide as Hsel; [by rewrite bool_decide_true in He|done].
  - destruct o as [|o']; [done|]. simpl_prompting. by case_decide.
Qed.

(** X15. No overlap, and no queue: in every reachable state of the
    prompting controller at most one [backend.reInitialize()] is in
    flight, and [isReInitializing] is true exactly while one is.  A
    restart asked for during a run is dropped without a trace: any
    number of them leaves the state as it is, and when the run settles
    the controller is idle with no further run started or owed. *)
Theorem restart_during_run_is_dropped (mode : bool) (es : list Event) (k : nat)
    (env : Lsp.Env) :
  let s := run es (activate mode) in
  inflight s <= 1 /\
  (isReInitializing s = true <-> inflight s = 1) /\
  (isReInitializing s = true ->
     run (repeat Restart k) s = s /\
     let s' := run (repeat Restart k ++ [Settle env]) s in
     isReInitializing s' = false /\ inflight s' = 0 /\ runs s' = runs s /\
     forall e, asks_run e = false -> runs (step e s') = runs s).
Proof.
  intros s. destruct (prompt_inv_reachable mode es) as [_ Hf]. fold s in Hf. clearbody s.
  split_and!.
  - rewrite Hf. destruct (isReInitializing s); lia.
  - rewrite Hf. by destruct (isReInitializing s).
  - intros Hb. rewrite Hb in Hf.
    assert (Hdrop : run (repeat Restart k) s = s).
    { induction k as [|k IH]; [done|]. cbn [repeat run fold_left].
      assert (E : step Restart s = s).
      { destruct s as [busy vis shown p o r inf rn w m]. simpl_prompting. subst busy.
        reflexivity. }
      rewrite E. exact IH. }
    split; [exact Hdrop|]. cbv zeta. unfold run in *. rewrite fold_left_app, Hdrop.
    cbn [fold_left].
    assert (E : step (Settle env) s =
                {| isReInitializing := false;
                   configChangePromptVisible := configChangePromptVisible s;
                   hasShownLspWarning := hasShownLspWarning s;
                   openPrompts := openPrompts s; openWarnings := openWarnings s;
                   reloads := reloads s; inflight := 0; runs := runs s;
                   backend := backend (step (Settle env) s);
                   backendIsLsp := backendIsLsp s |}).
    { unfold step, exec. by rewrite prompting_Settle_spec, Hf. }
    split_and!; try (by rewrite E).
    intros e He. rewrite prompting_runs_step by done. by rewrite E.
Qed.

(** X16. The watcher only asks: through any sequence of events in which
    the user neither runs the restart command (nor changes the workspace
    folders) nor answers a prompt with "Refresh", from any state, no
    run is started: file changes and settings changes lead to a run only
    through the user's answer. *)
Theorem watcher_only_prompts (es : list Event) (s : State) :
  forallb (fun e => negb (asks_run e)) es = true ->
  runs (run es s) = runs s.
Proof.
  revert s. induction es as [|e es IH]; intros s Hes; [done|].
  cbn in Hes. apply andb_prop in Hes as [He Hes].
  cbn [run fold_left]. change (runs (run es (step e s)) = runs s).
  rewrite IH by done. apply prompting_runs_step. by destruct (asks_run e).
Qed.

(** *** Instances of the theorems above *)

Lemma watcher_only_prompts_witness :
  let es := [FileChanged; ConfigurationChanged true Lsp.env_ok; PromptAnswered None;
             Settle Lsp.env_ok; FileChanged] in
  forallb (fun e => negb (asks_run e)) es = true /\
  runs (run es (activate true)) = runs (activate true).
Proof.
  intros es. split; [reflexivity|].
  exact (watcher_only_prompts es (activate true) eq_refl).
Defined.

End PromptingFacts.

(** ** The global plugin state *)

Module GlobalFacts.
Import Global.

Section WithBackend.
Context {B E : Type} `{!ExtensionBackend B E}.

Ltac unfold_global :=
  unfold getAndSetNewGlobalState, deactivate, clearGlobalState, GlobalPluginState_dispose,
    dispose_backend, dispose_channel, create_channel in *.

Ltac simpl_global :=
  unfold set_globalState, set_channels, add_disposedBackend in *;
  cbn [globalState channels disposedBackends outputChannel extensionBackend fst snd] in *.

Lemma elem_of_live_channels (p : Process B) c :
  c ∈ live_channels p <-> channels p !! c = Some false.
Proof.
  unfold live_channels. rewrite elem_of_dom. unfold is_Some.
  setoid_rewrite map_lookup_filter_Some. cbn. split.
  - by intros (x & Hl & ->).
  - intros Hl. by exists false.
Qed.

Lemma GlobalPluginState_dispose_spec (g : GlobalPluginState B) (p : Process B) :
  GlobalPluginState_dispose g p =
  ({| globalState := globalState p;
      channels := <[outputChannel g := true]> (channels p);
      disposedBackends :=
        (disposedBackends p ++ [exec backend_dispose (extensionBackend g)])%list |},
   Normal tt).
Proof.
  unfold_global. unfold_eff.
  destruct (backend_dispose (extensionBackend g)) as [b' [[]|err]]; by simpl_global.
Qed.

Lemma clearGlobalState_spec (p : Process B) :
  clearGlobalState p =
  (match globalState p with
   | Some g =>
       {| globalState := None;
          channels := <[outputChannel g := true]> (channels p);
          disposedBackends :=
            (disposedBackends p ++ [exec backend_dispose (extensionBackend g)])%list |}
   | None => set_globalState None p
   end, Normal tt).
Proof.
  unfold clearGlobalState. unfold mbind, mret, Eff_bind, Eff_ret, eff_bind, eff_ret, gets, modify.
  destruct (globalState p) as [g|] eqn:Hg; [|done].
  by rewrite GlobalPluginState_dispose_spec.
Qed.

Lemma process_inv_initial : process_inv (initial (B := B)).
Proof.
  intros c. cbn. rewrite lookup_empty. split; [done|]. by intros (g & [=] & _).
Qed.

Lemma live_channels_cleared (p : Process B) :
  process_inv p -> live_channels (exec clearGlobalState p) = ∅.
Proof.
  intros Hp. apply set_eq. intros c. rewrite elem_of_live_channels.
  unfold exec. rewrite clearGlobalState_spec. cbn [fst].
  split; [|set_solver]. intros Hl.
  destruct (globalState p) as [g|] eqn:Hg; simpl_global.
  - destruct (decide (c = outputChannel g)) as [->|Hne].
    + by rewrite lookup_insert_eq in Hl.
    + rewrite lookup_insert_ne in Hl by done.
      apply Hp in Hl as (g' & Hg' & Hc). congruence.
  - apply Hp in Hl as (g' & Hg' & _). congruence.
Qed.

Lemma process_inv_cleared (p : Process B) :
  process_inv p -> process_inv (exec clearGlobalState p).
Proof.
  intros Hp c. pose proof (live_channels_cleared p Hp) as Hl.
  assert (Hn : globalState (exec clearGlobalState p) = None).
  { unfold exec. rewrite clearGlobalState_spec. cbn [fst]. by destruct (globalState p). }
  rewrite <- elem_of_live_channels, Hl, Hn. split; [set_solver|]. by intros (g & [=] & _).
Qed.

Lemma getAndSetNewGlobalState_spec (env : Startup B) (p : Process B) :
  let p0 := exec clearGlobalState p in
  let c := fresh (dom (channels p0)) in
  getAndSetNewGlobalState env p =
  match createOutputChannel env with
  | Throw e => (p0, Throw e)
  | Normal _ =>
      match startup_outcome env with
      | Throw e => (set_channels (insert c true) p0, Throw e)
      | Normal b =>
          let g := {| outputChannel := c; extensionBackend := b |} in
          (set_globalState (Some g) (set_channels (insert c false) p0), Normal g)
      end
  end.
Proof.
  intros p0 c. subst p0 c. unfold getAndSetNewGlobalState, startup_outcome.
  unfold mbind at 1. unfold Eff_bind, eff_bind. unfold exec.
  rewrite clearGlobalState_spec. cbn [fst].
  unfold_global. unfold_eff.
  destruct (createOutputChannel env) as [[]|e0]; [|done].
  simpl_global.
  destruct (newLogger env) as [[]|e1]; [|by simpl_global; rewrite insert_insert_eq].
  destruct (newApprovedConfigPaths env) as [[]|e2]; [|by simpl_global; rewrite insert_insert_eq].
  destruct (ConfigurationWatch.isLsp (workspace env)).
  - destruct (activateLsp env) as [b|e3]; [done|by simpl_global; rewrite insert_insert_eq].
  - destruct (activateLegacy env) as [b|e3]; [done|by simpl_global; rewrite insert_insert_eq].
Qed.

Lemma fresh_channel (p : Process B) : channels p !! fresh (dom (channels p)) = None.
Proof. apply not_elem_of_dom_1, is_fresh. Qed.

Lemma process_inv_activated (env : Startup B) (p : Process B) :
  process_inv p -> process_inv (exec (getAndSetNewGlobalState env) p).
Proof.
  intros Hp. apply process_inv_cleared in Hp.
  assert (Hn : globalState (exec clearGlobalState p) = None).
  { unfold exec. rewrite clearGlobalState_spec. cbn [fst]. by destruct (globalState p). }
  unfold exec at 1. rewrite getAndSetNewGlobalState_spec.
  set (p0 := exec clearGlobalState p) in *. clearbody p0.
  pose proof (fresh_channel p0) as Hf.
  set (c := fresh (dom (channels p0))) in *. clearbody c.
  destruct (createOutputChannel env) as [[]|e0]; [|done].
  destruct (startup_outcome env) as [b|e]; cbn [fst]; intros c'; simpl_global.
  - destruct (decide (c' = c)) as [->|Hne].
    + rewrite lookup_insert_eq. split; [eauto|done].
    + rewrite lookup_insert_ne by done. rewrite (Hp c'), Hn.
      split; [by intros (g & [=] & _)|]. intros (g & [= <-] & Hc). by cbn in Hc.
  - destruct (decide (c' = c)) as [->|Hne].
    + rewrite lookup_insert_eq, Hn. split; [done|]. by intros (g & [=] & _).
    + rewrite lookup_insert_ne by done. apply Hp.
Qed.

Lemma process_inv_run_ops (ops : list (Op B)) (p : Process B) :
  process_inv p -> process_inv (run_ops ops p).
Proof.
  unfold run_ops. revert p. induction ops as [|o ops IH]; intros p Hp; [done|].
  cbn. apply IH. destruct o; [by apply process_inv_activated | by apply process_inv_cleared].
Qed.

Lemma live_channels_inv (p : Process B) :
  process_inv p ->
  live_channels p = match globalState p with
                    | Some g => {[outputChannel g]}
                    | None => ∅
                    end.
Proof.
  intros Hp. apply set_eq. intros c. rewrite elem_of_live_channels, (Hp c).
  destruct (globalState p) as [g|].
  - rewrite elem_of_singleton. split; [by intros (g' & [= <-] & <-)|]. intros ->. eauto.
  - split; [by intros (g' & [=] & _)|set_solver].
Qed.

(** X17. [deactivate] never throws, whatever the backend's [dispose]
    does: it awaits that [dispose] once (when there is a global state),
    leaves [globalState] undefined and no output channel open, and a
    second [deactivate] changes nothing. *)
Theorem deactivate_releases_everything (p : Process B) :
  process_inv p ->
  let p1 := exec deactivate p in
  result deactivate p = Normal tt /\
  globalState p1 = None /\
  live_channels p1 = ∅ /\
  disposedBackends p1 =
    (disposedBackends p ++
     match globalState p with
     | Some g => [exec backend_dispose (extensionBackend g)]
     | None => []
     end)%list /\
  deactivate p1 = (p1, Normal tt).
Proof.
  intros Hp p1. pose proof (live_channels_cleared p Hp) as Hl.
  subst p1. unfold deactivate, exec, result in *.
  rewrite !clearGlobalState_spec. rewrite clearGlobalState_spec in Hl. cbn [fst snd] in *.
  split; [done|].
  destruct (globalState p) as [g|]; simpl_global; rewrite ?app_nil_r; by split_and!.
Qed.

(** X18. [getAndSetNewGlobalState] either returns the new global state,
    holding the backend the selected factory made and a fresh output
    channel that is the only one open, or throws the first exception of
    its collaborators after disposing the channel it created, leaving
    [globalState] undefined and no channel open.  In both cases the
    previous backend has been disposed. *)
Theorem getAndSetNewGlobalState_outcome (env : Startup B) (p : Process B) :
  process_inv p ->
  let p' := exec (getAndSetNewGlobalState env) p in
  disposedBackends p' = disposedBackends (exec clearGlobalState p) /\
  match result (getAndSetNewGlobalState env) p with
  | Normal g =>
      startup_outcome env = Normal (extensionBackend g) /\
      globalState p' = Some g /\
      live_channels p' = {[outputChannel g]} /\
      outputChannel g ∉ dom (channels p)
  | Throw e =>
      startup_outcome env = Throw e /\
      globalState p' = None /\
      live_channels p' = ∅
  end.
Proof.
  intros Hp p'. pose proof (process_inv_activated env p Hp) as Hp'.
  apply live_channels_inv in Hp'. fold p' in Hp'. revert Hp'.
  assert (Hn : globalState (exec clearGlobalState p) = None).
  { unfold exec. rewrite clearGlobalState_spec. cbn [fst]. by destruct (globalState p). }
  assert (Hd : dom (channels p) ⊆ dom (channels (exec clearGlobalState p))).
  { unfold exec. rewrite clearGlobalState_spec. cbn [fst].
    destruct (globalState p); simpl_global; [|done]. rewrite dom_insert. set_solver. }
  pose proof (getAndSetNewGlobalState_spec env p) as Hs. cbv zeta in Hs.
  subst p'. unfold exec, result in *. rewrite Hs. clear Hs.
  set (p0 := (clearGlobalState p).1) in *. clearbody p0.
  pose proof (is_fresh (dom (channels p0))) as Hf.
  destruct (createOutputChannel env) as [[]|e0] eqn:Hc; cbn [fst snd].
  - destruct (startup_outcome env) as [b|e]; cbn [fst snd]; simpl_global; intros Hl.
    + split_and!; try done. intros Hin. apply Hf. by apply Hd.
    + by rewrite Hn in *.
  - intros Hl. rewrite Hn in *. split_and!; try done.
    unfold startup_outcome. by rewrite Hc.
Qed.

Lemma backends_step (o : Op B) (p : Process B) :
  (length (disposedBackends (apply_op o p)) + backends_in_use (apply_op o p))%nat =
  (length (disposedBackends p) + backends_in_use p + if succeeds o then 1 else 0)%nat.
Proof.
  unfold backends_in_use. destruct o as [env|]; cbn [apply_op succeeds].
  - pose proof (getAndSetNewGlobalState_spec env p) as Hs. cbv zeta in Hs.
    unfold exec in *. rewrite Hs. clear Hs. rewrite clearGlobalState_spec. cbn [fst].
    destruct (createOutputChannel env) as [[]|e0] eqn:Hc; cbn [fst].
    + destruct (startup_outcome env) as [b|e]; cbn [fst];
        destruct (globalState p) as [g|]; simpl_global; rewrite ?length_app; cbn; lia.
    + unfold startup_outcome. rewrite Hc.
      destruct (globalState p) as [g|]; simpl_global; rewrite ?length_app; cbn; lia.
  - unfold deactivate, exec. rewrite clearGlobalState_spec. cbn [fst].
    destruct (globalState p) as [g|]; simpl_global; rewrite ?length_app; cbn; lia.
Qed.

(** X19. Over any sequence of activations and deactivations, with
    start-ups that succeed or fail anywhere: at most one output channel
    is open, and only while there is a global state; and every backend
    a start-up made is either the current one or has had its [dispose]
    awaited, exactly once. *)
Theorem one_global_state (ops : list (Op B)) :
  let p := run_ops ops initial in
  (size (live_channels p) <= 1)%nat /\
  (live_channels p = ∅ <-> globalState p = None) /\
  (length (disposedBackends p) + backends_in_use p)%nat =
    length (List.filter succeeds ops).
Proof.
  intros p.
  pose proof (live_channels_inv p (process_inv_run_ops ops initial process_inv_initial)) as Hl.
  split_and!.
  - rewrite Hl. destruct (globalState p); [by rewrite size_singleton|by rewrite size_empty; lia].
  - rewrite Hl. destruct (globalState p) as [g|]; [|done].
    split; [|done]. intros He. by apply non_empty_singleton_L in He.
  - clear Hl. subst p. induction ops as [|o ops IH] using rev_ind; [done|].
    unfold run_ops in *. rewrite fold_left_app. cbn [fold_left].
    pose proof (backends_step o (fold_left (fun p o => apply_op o p) ops initial)) as Hs.
    rewrite Hs, IH, List.filter_app, length_app. cbn [List.filter].
    by destruct (succeeds o).
Qed.

End WithBackend.

(** X20. [deactivate] with the backend of [src/lsp.ts], between two
    calls and in whatever state they have left it, always completes and
    leaves [globalState] undefined.  When [stop] resolves, or no client
    is assigned, no language client is left behind: the backend it
    disposed holds no handle, none of its clients is undisposed or
    running, and the resource stores were disposed last.  When [stop]
    rejects, the rejection is swallowed: the client stays assigned and
    undisposed, and the resource stores are not disposed. *)
Theorem deactivate_stops_language_client
  (env : Lsp.Env) (p : Process Lsp.World) (g : GlobalPluginState Lsp.World)
  (ops : list Lsp.Op) :
  globalState p = Some g ->
  extensionBackend g = Lsp.run_ops ops Lsp.empty ->
  let w := extensionBackend g in
  let p' := exec (@deactivate _ _ (Lsp_ExtensionBackend env)) p in
  result (@deactivate _ _ (Lsp_ExtensionBackend env)) p = Normal tt /\
  globalState p' = None /\
  exists w',
    disposedBackends p' = (disposedBackends p ++ [w'])%list /\
    (Lsp.client w = None \/ Lsp.stop env = Normal tt ->
       Lsp.client w' = None /\
       Lsp.live_handles w' = ∅ /\
       Lsp.running_handles w' = ∅ /\
       last (Lsp.calls w') = Some Lsp.ResourceStoresDispose) /\
    (forall e, is_Some (Lsp.client w) -> Lsp.stop env = Throw e ->
       Lsp.client w' = Lsp.client w /\
       Lsp.heap w' = Lsp.heap w /\
       Lsp.live_handles w' <> ∅ /\
       Lsp.calls w' = (Lsp.calls w ++ Lsp.stop_calls (Lsp.client w))%list).
Proof.
  intros Hg Hb w p'. subst p'. unfold deactivate, exec, result.
  rewrite clearGlobalState_spec, Hg. cbn [fst snd].
  pose proof (LspFacts.handle_inv_reachable ops) as Hw. rewrite <- Hb in Hw. fold w in Hw.
  split; [done|]. split; [done|].
  exists (exec (Lsp.dispose env) w). split; [done|]. split.
  - intros Hok%LspFacts.release_client_completes.
    unfold exec. rewrite LspFacts.dispose_released by done. cbn [fst].
    split_and!.
    + by apply LspFacts.released_client.
    + rewrite <- (LspFacts.live_handles_released env w Hok Hw).
      by apply LspFacts.live_handles_ext.
    + rewrite <- (LspFacts.running_handles_released env w Hok Hw).
      by apply LspFacts.running_handles_ext.
    + cbn. by rewrite last_snoc.
  - intros e [h Hc] Hs.
    assert (Hrel : result (Lsp.release_client env) w = Throw e).
    { LspFacts.unfold_lsp. unfold_eff. by rewrite Hc, Hs. }
    destruct (LspFacts.dispose_rejected env w e Hrel) as (h' & Hc' & _ & Hr).
    unfold exec. rewrite Hr, Hc'. cbn. split_and!; try done.
    rewrite (LspFacts.live_handles_ext _ w) by done.
    rewrite (LspFacts.live_handles_owned w Hw), Hc'. apply non_empty_singleton_L.
Qed.

(** *** Instances of the theorems above *)

Lemma deactivate_releases_everything_witness :
  let lsp := Lsp_ExtensionBackend Lsp.env_ok in
  let p := exec (@getAndSetNewGlobalState _ _ lsp startup_lsp) initial in
  process_inv p /\
  globalState (exec (@deactivate _ _ lsp) p) = None /\
  live_channels (exec (@deactivate _ _ lsp) p) = ∅.
Proof.
  intros lsp p.
  assert (Hp : process_inv p) by apply process_inv_activated, process_inv_initial.
  split; [exact Hp|].
  destruct (@deactivate_releases_everything _ _ lsp p Hp) as (_ & Hg & Hl & _).
  split; [exact Hg | exact Hl].
Defined.

Lemma getAndSetNewGlobalState_outcome_witness :
  let lsp := Lsp_ExtensionBackend Lsp.env_ok in
  process_inv (initial (B := Lsp.World)) /\
  disposedBackends (exec (@getAndSetNewGlobalState _ _ lsp startup_lsp) initial) =
    disposedBackends (exec (@clearGlobalState _ _ lsp) initial).
Proof.
  intros lsp. split; [exact process_inv_initial|].
  destruct (@getAndSetNewGlobalState_outcome _ _ lsp startup_lsp initial process_inv_initial)
    as (H & _).
  exact H.
Defined.

Lemma deactivate_stops_language_client_witness :
  let w := Lsp.run_ops [Lsp.ReInitialize Lsp.env_start_fails] Lsp.empty in
  let g := {| outputChannel := 0; extensionBackend := w |} in
  let p := {| globalState := Some g; channels := {[0 := false]}; disposedBackends := [] |} in
  globalState p = Some g /\
  extensionBackend g = Lsp.run_ops [Lsp.ReInitialize Lsp.env_start_fails] Lsp.empty /\
  is_Some (Lsp.client w) /\
  Lsp.stop Lsp.env_stop_rejects
    = Throw (ShutdownFailed "Client is not running and can't be stopped.") /\
  result (@deactivate _ _ (Lsp_ExtensionBackend Lsp.env_stop_rejects)) p = Normal tt /\
  exists w',
    disposedBackends (exec (@deactivate _ _ (Lsp_ExtensionBackend Lsp.env_stop_rejects)) p)
      = [w'] /\
    Lsp.client w' = Lsp.client w.
Proof.
  intros w g p.
  assert (Hc : is_Some (Lsp.client w)) by (by exists 0).
  split; [reflexivity|]. split; [reflexivity|]. split; [exact Hc|]. split; [reflexivity|].
  destruct (deactivate_stops_language_client Lsp.env_stop_rejects p g
              [Lsp.ReInitialize Lsp.env_start_fails] eq_refl eq_refl)
    as (Hr & _ & w' & Hd & _ & Hrej).
  split; [exact Hr|]. exists w'. split; [exact Hd|].
  destruct (Hrej _ Hc eq_refl) as (H & _). exact H.
Defined.

End GlobalFacts.
